(** * The command catalog of astrbot_plugin_help (src/main.py)

    A shallow embedding of [MyPlugin] in src/main.py: the permission
    classifier, the visibility policy, the display-name map and the catalog
    builder [get_all_commands], followed by the properties of the catalog. *)

From Stdlib Require Import String Ascii.
From stdpp Require Import base list gmap sets.

Local Open Scope N_scope.

(** ** Python strings

    A Python [str] is a sequence of Unicode code points. *)

Abbreviation pystr := (list N).

(** An ASCII literal of the source, as code points. *)
Definition str (s : string) : pystr :=
  map N_of_ascii (list_ascii_of_string s).

(** The characters [str.strip()] removes: those for which [str.isspace] holds. *)
Definition is_space (c : N) : bool :=
  ((9 <=? c) && (c <=? 13)) || ((28 <=? c) && (c <=? 32))
  || (c =? 133) || (c =? 160) || (c =? 5760)
  || ((8192 <=? c) && (c <=? 8202))
  || (c =? 8232) || (c =? 8233) || (c =? 8239) || (c =? 8287) || (c =? 12288).

Fixpoint lstrip (s : pystr) : pystr :=
  match s with
  | [] => []
  | c :: s' => if is_space c then lstrip s' else s
  end.

Definition rstrip (s : pystr) : pystr := reverse (lstrip (reverse s)).

(** [s.strip()] *)
Definition strip (s : pystr) : pystr := rstrip (lstrip s).

Definition colon : N := 58.

(** [sep in s] for a one-character [sep]. *)
Definition str_contains (sep : N) (s : pystr) : bool := bool_decide (sep ∈ s).

(** [s.split(sep, 1)]: at most one split, at the first occurrence of [sep]. *)
Fixpoint str_split1 (sep : N) (s : pystr) : list pystr :=
  match s with
  | [] => [[]]
  | c :: s' =>
      if c =? sep then [[]; s']
      else match str_split1 sep s' with
           | a :: rest => (c :: a) :: rest
           | [] => [[c]]
           end
  end.

(** A string of whitespace only. *)
Definition all_space (ws : pystr) : Prop := Forall (λ c, is_space c = true) ws.

(** Truth value of a string: [bool(s)]. *)
Definition str_truthy (s : pystr) : bool :=
  match s with [] => false | _ => true end.

(** [a or b] on strings. *)
Definition str_or (a b : pystr) : pystr := if str_truthy a then a else b.

(** ** Configuration values

    The plugin configuration is loaded from JSON; its attributes hold
    dynamically typed values. *)

#[local] Set Warnings "-register-all".

Inductive pyval : Type :=
  | PNone
  | PBool (b : bool)
  | PInt (z : Z)
  | PStr (s : pystr)
  | PList (l : list pyval).

(** [bool(v)] *)
Definition truthy (v : pyval) : bool :=
  match v with
  | PNone => false
  | PBool b => b
  | PInt z => negb (Z.eqb z 0)
  | PStr s => str_truthy s
  | PList l => match l with [] => false | _ => true end
  end.

(** [a or b] *)
Definition py_or (a b : pyval) : pyval := if truthy a then a else b.

(** [getattr(obj, name, dflt)]: [attribute] is what looking the name up on
    the object gives, [None] when the lookup raises [AttributeError] (the
    attribute is missing) and [Some v] when it yields the value [v]. *)
Definition getattr {A} (attribute : option A) (dflt : A) : A :=
  default dflt attribute.

(** The three options [self.config] is probed for, each as its attribute
    lookup answers. The configuration class of the host is a dictionary with
    attribute access that answers a key it does not hold with the value
    [None] instead of raising: on such an object a missing key is
    [Some PNone], and the default of [getattr] is not used. *)
Record Config := {
  show_all_cmds : option pyval;
  show_builtin_cmds : option pyval;
  plugin_display_names : option pyval;
}.

(** ** Exceptions and the logger

    A computation appends records to the log and either returns a value or
    raises an instance of [Exception]. *)

Inductive exn : Type :=
  | HostError (msg : pystr)
  | ValueError.

Inductive LogRecord : Type :=
  | LogDebugActivated (n : nat)
  | LogErrorFetch (e : exn)
  | LogWarningNoPlugins
  | LogWarningInvalid (plugin_name : pystr) (module_path : option pystr).

Inductive outcome (A : Type) : Type :=
  | Return (a : A)
  | Raise (e : exn).
Arguments Return {A} a.
Arguments Raise {A} e.

Definition M (A : Type) : Type := (list LogRecord * outcome A)%type.

Definition ret {A} (a : A) : M A := ([], Return a).
Definition raise {A} (e : exn) : M A := ([], Raise e).
Definition logger (r : LogRecord) : M unit := ([r], Return tt).

Definition bind {A B} (m : M A) (k : A → M B) : M B :=
  match m with
  | (l, Return a) => let '(l', r) := k a in (l ++ l', r)
  | (l, Raise e) => (l, Raise e)
  end.

(** [try: m  except Exception as e: h e] *)
Definition try_except {A} (m : M A) (h : exn → M A) : M A :=
  match m with
  | (l, Raise e) => let '(l', r) := h e in (l ++ l', r)
  | (l, Return a) => (l, Return a)
  end.

Notation "'let*' x ':=' m 'in' k" := (bind m (λ x, k))
  (at level 10, x name, m at level 100, k at level 200, only parsing).

(** A [for] loop whose body updates a state. *)
Fixpoint for_each {A S} (body : S → A → M S) (l : list A) (s : S) : M S :=
  match l with
  | [] => ret s
  | x :: l' => let* s' := body s x in for_each body l' s'
  end.

(** ** [_get_plugin_display_name_map] *)

(** One iteration of the loop over [configured_names]. *)
Definition display_name_item (mapping : gmap pystr pystr) (item : pyval)
  : M (gmap pystr pystr) :=
  match item with
  | PStr item =>
      let raw := strip item in
      if negb (str_truthy raw) || negb (str_contains colon raw) then ret mapping
      else
        match str_split1 colon raw with
        | [plugin_name; display_name] =>
            let plugin_name := strip plugin_name in
            let display_name := strip display_name in
            if str_truthy plugin_name && str_truthy display_name
            then ret (<[plugin_name := display_name]> mapping)
            else ret mapping
        | _ => raise ValueError
        end
  | _ => ret mapping
  end.

Definition _get_plugin_display_name_map (config : Config) : M (gmap pystr pystr) :=
  let mapping : gmap pystr pystr := ∅ in
  let configured_names :=
    py_or (getattr (plugin_display_names config) (PList [])) (PList []) in
  match configured_names with
  | PList configured_names => for_each display_name_item configured_names mapping
  | _ => ret mapping
  end.

(** ** The host's data: filters, handlers and plugin descriptors *)

Inductive PermissionType : Type := ADMIN | MEMBER.

Inductive EventFilter : Type :=
  | CommandFilter (command_name : pystr)
  | CommandGroupFilter (group_name : pystr)
  | PermissionTypeFilter (permission_type : PermissionType)
  | OtherFilter.

Record StarHandlerMetadata := {
  handler_module_path : pystr;
  desc : option pystr;
  event_filters : list EventFilter;
}.

(** What iterating [star_handlers_registry] yields. *)
Inductive RegistryItem : Type :=
  | Handler (handler : StarHandlerMetadata)
  | NotHandler.

(** The object held in [star_cls]: an instance of [Star], or anything else. *)
Inductive PluginInstance : Type := StarInstance | OtherObject.

(** A plugin descriptor. [name = None] is a descriptor without the attribute;
    for the other optional attributes [None] is a missing attribute or the
    value [None], which the code does not tell apart. *)
Record StarMetadata := {
  name : option pystr;
  display_name : option pystr;
  star_cls : option PluginInstance;
  module_path : option pystr;
  activated : bool;
}.

(** The host state one call reads: the outcome of [context.get_all_stars()]
    and the global handler registry. *)
Record Host := {
  get_all_stars : outcome (list StarMetadata);
  star_handlers_registry : list RegistryItem;
}.

(** ** [_get_permission_level] and [_should_include_command] *)

Fixpoint _get_permission_level (event_filters : list EventFilter) : pystr :=
  match event_filters with
  | [] => str "everyone"
  | PermissionTypeFilter permission_type :: _ =>
      match permission_type with
      | ADMIN => str "admin"
      | _ => str "member"
      end
  | _ :: rest => _get_permission_level rest
  end.

Definition _should_include_command (config : Config) (permission_level : pystr) : bool :=
  if truthy (getattr (show_all_cmds config) (PBool false)) then true
  else bool_decide (permission_level ≠ str "admin").

(** ** [get_all_commands] *)

(** An element of a group: the dictionary with keys "command", "desc" (here
    [desc_text], the value stored under it) and "permission". *)
Record CommandEntry := {
  command : pystr;
  desc_text : pystr;
  permission : pystr;
}.

#[global] Instance CommandEntry_eq_dec : EqDecision CommandEntry.
Proof. solve_decision. Defined.

Abbreviation DedupeKey := (pystr * pystr * pystr)%type.

(** [plugin_commands]: a dictionary in insertion order, with lists as values. *)
Abbreviation Catalog := (list (pystr * list CommandEntry)).

(** [plugin_commands[k].append(e)] on a [defaultdict(list)]. *)
Fixpoint dict_append (k : pystr) (e : CommandEntry) (d : Catalog) : Catalog :=
  match d with
  | [] => [(k, [e])]
  | (k', v) :: d' =>
      if bool_decide (k' = k) then (k', v ++ [e]) :: d'
      else (k', v) :: dict_append k e d'
  end.

(** [d.get(k)] *)
Fixpoint dict_lookup (k : pystr) (d : Catalog) : option (list CommandEntry) :=
  match d with
  | [] => None
  | (k', v) :: d' => if bool_decide (k' = k) then Some v else dict_lookup k d'
  end.

(** [plugin_command_keys[k]] on a [defaultdict(set)]: a missing key is
    inserted with the empty set. *)
Definition keys_getitem (k : pystr) (d : gmap pystr (gset DedupeKey))
  : gset DedupeKey * gmap pystr (gset DedupeKey) :=
  match d !! k with
  | Some s => (s, d)
  | None => (∅, <[k := ∅]> d)
  end.

(** The two local dictionaries of [get_all_commands]. *)
Record Locals := {
  plugin_commands : Catalog;
  plugin_command_keys : gmap pystr (gset DedupeKey);
}.

(** The scan of [handler.event_filters] for the command or group name;
    [None] when no filter of either kind is found. *)
Fixpoint find_command_name (event_filters : list EventFilter) : option pystr :=
  match event_filters with
  | [] => None
  | CommandFilter command_name :: _ => Some command_name
  | CommandGroupFilter group_name :: _ => Some group_name
  | _ :: rest => find_command_name rest
  end.

(** The body of the loop over [star_handlers_registry]. The test
    [if command_name:] fails on [None] and on the empty string. *)
Definition process_handler (config : Config) (plugin_displayname module_path : pystr)
    (st : Locals) (item : RegistryItem) : Locals :=
  match item with
  | NotHandler => st
  | Handler handler =>
      if bool_decide (handler_module_path handler ≠ module_path) then st
      else
        let command_name := find_command_name (event_filters handler) in
        let description := desc handler in
        match command_name with
        | Some command_name =>
            if str_truthy command_name then
              let permission_level := _get_permission_level (event_filters handler) in
              if negb (_should_include_command config permission_level) then st
              else
                let desc_text := strip (default [] description) in
                let dedupe_key := (command_name, desc_text, permission_level) in
                let '(seen, keys) :=
                  keys_getitem plugin_displayname (plugin_command_keys st) in
                if bool_decide (dedupe_key ∈ seen)
                then {| plugin_commands := plugin_commands st;
                        plugin_command_keys := keys |}
                else
                  let '(seen, keys) := keys_getitem plugin_displayname keys in
                  {| plugin_commands :=
                       dict_append plugin_displayname
                         {| command := command_name;
                            desc_text := desc_text;
                            permission := permission_level |}
                         (plugin_commands st);
                     plugin_command_keys :=
                       <[plugin_displayname := seen ∪ {[dedupe_key]}]> keys |}
            else st
        | None => st
        end
  end.

(** The default of [getattr(star, "name", ...)]: the four characters of the
    literal in the source ("unknown plugin"). *)
Definition unknown_plugin : pystr := [26410; 30693; 25554; 20214].

(** [bool(module_path)] *)
Definition path_truthy (module_path : option pystr) : bool :=
  match module_path with
  | Some p => str_truthy p
  | None => false
  end.

(** [isinstance(plugin_instance, Star)] *)
Definition isinstance_Star (plugin_instance : option PluginInstance) : bool :=
  match plugin_instance with
  | Some StarInstance => true
  | _ => false
  end.

(** The display name of a plugin (lines 103-109). *)
Definition plugin_displayname_of (display_name_map : gmap pystr pystr)
    (star : StarMetadata) : pystr :=
  let plugin_name := getattr (name star) unknown_plugin in
  let plugin_native_displayname := strip (str_or (default [] (display_name star)) []) in
  str_or plugin_native_displayname
    (str_or (default [] (display_name_map !! plugin_name)) plugin_name).

(** The body of the loop over [all_stars_metadata]. *)
Definition process_star (config : Config) (display_name_map : gmap pystr pystr)
    (registry : list RegistryItem) (st : Locals) (star : StarMetadata) : M Locals :=
  let plugin_name := getattr (name star) unknown_plugin in
  let plugin_displayname := plugin_displayname_of display_name_map star in
  let plugin_instance := star_cls star in
  let module_path := module_path star in
  if bool_decide (plugin_name = str "astrbot")
     || bool_decide (plugin_name = str "astrbot_plugin_help")
     || bool_decide (plugin_name = str "astrbot-reminder")
  then ret st
  else if bool_decide (plugin_name = str "builtin_commands")
          && negb (truthy (getattr (show_builtin_cmds config) (PBool true)))
  then ret st
  else if negb (str_truthy plugin_name)
          || negb (path_truthy module_path)
          || negb (isinstance_Star plugin_instance)
  then
    let* _ := logger (LogWarningInvalid plugin_name module_path) in
    ret st
  else
    ret (foldl (process_handler config plugin_displayname (default [] module_path))
           st registry).

Definition get_all_commands (host : Host) (config : Config) : M Catalog :=
  let locals := {| plugin_commands := []; plugin_command_keys := ∅ |} in
  let* fetched :=
    try_except
      (let* all_stars_metadata := ([], get_all_stars host) in
       let all_stars_metadata := filter (λ star, activated star = true) all_stars_metadata in
       let* _ := logger (LogDebugActivated (length all_stars_metadata)) in
       ret (inr all_stars_metadata))
      (λ e, let* _ := logger (LogErrorFetch e) in ret (inl []))
  in
  match fetched with
  | inl early => ret early
  | inr all_stars_metadata =>
      match all_stars_metadata with
      | [] => let* _ := logger LogWarningNoPlugins in ret []
      | _ =>
          let* display_name_map := _get_plugin_display_name_map config in
          let* st :=
            for_each (process_star config display_name_map (star_handlers_registry host))
              all_stars_metadata locals
          in
          ret (plugin_commands st)
      end
  end.

(** The catalog a call returns; [None] when the call raises. *)
Definition returned {A} (m : M A) : option A :=
  match m with
  | (_, Return a) => Some a
  | (_, Raise _) => None
  end.

(** ** The display-name map as the specification words it

    Each entry is read on its own: the text before the first colon is the
    key, the text after it the value, both trimmed. *)

Fixpoint before_first (sep : N) (s : pystr) : pystr :=
  match s with
  | [] => []
  | c :: s' => if c =? sep then [] else c :: before_first sep s'
  end.

Fixpoint after_first (sep : N) (s : pystr) : pystr :=
  match s with
  | [] => []
  | c :: s' => if c =? sep then s' else after_first sep s'
  end.

(** The binding an entry contributes, if it is well formed. *)
Definition spec_entry (item : pyval) : option (pystr * pystr) :=
  match item with
  | PStr s =>
      if str_contains colon s then
        let key := strip (before_first colon s) in
        let value := strip (after_first colon s) in
        if str_truthy key && str_truthy value then Some (key, value) else None
      else None
  | _ => None
  end.

Definition spec_insert (m : gmap pystr pystr) (item : pyval) : gmap pystr pystr :=
  match spec_entry item with
  | Some (key, value) => <[key := value]> m
  | None => m
  end.

Definition spec_display_name_map (configured : option pyval) : gmap pystr pystr :=
  match configured with
  | Some (PList entries) => foldl spec_insert ∅ entries
  | _ => ∅
  end.

(** [isinstance(v, list)] *)
Definition is_list (v : pyval) : bool :=
  match v with PList _ => true | _ => false end.

(** ** Sample inputs *)

Definition sample_names : pyval :=
  PList [PStr (str " weather : Wx "); PInt 3; PStr (str "nocolon");
         PStr (str "a:b:c"); PStr (str ": x"); PStr (str "weather:Sky")].

Definition sample_config : Config :=
  {| show_all_cmds := None;
     show_builtin_cmds := None;
     plugin_display_names := Some sample_names |}.

(** ** Vocabulary of the properties *)

Definition is_permission_filter (f : EventFilter) : bool :=
  match f with PermissionTypeFilter _ => true | _ => false end.

(** A [CommandFilter] or a [CommandGroupFilter]. *)
Definition is_command_filter (f : EventFilter) : bool :=
  match f with CommandFilter _ | CommandGroupFilter _ => true | _ => false end.

Definition dedupe_key (e : CommandEntry) : DedupeKey :=
  (command e, desc_text e, permission e).

(** The entries of a group; none when the catalog has no such group. *)
Definition group (g : pystr) (catalog : Catalog) : list CommandEntry :=
  default [] (dict_lookup g catalog).

(** Adding an entry to a group unless the group already has it. *)
Definition catalog_add (catalog : Catalog) (ge : pystr * CommandEntry) : Catalog :=
  if bool_decide (ge.2 ∈ group ge.1 catalog) then catalog
  else dict_append ge.1 ge.2 catalog.

(** The entry a registry item qualifies for under a plugin with the given
    module path: the item is a handler of that module, its first command or
    group filter has a non-empty name, and its permission level is shown. *)
Definition handler_entry (config : Config) (module_path : pystr) (item : RegistryItem)
  : option CommandEntry :=
  match item with
  | NotHandler => None
  | Handler handler =>
      if bool_decide (handler_module_path handler = module_path) then
        match find_command_name (event_filters handler) with
        | Some command_name =>
            let permission_level := _get_permission_level (event_filters handler) in
            if str_truthy command_name && _should_include_command config permission_level
            then Some {| command := command_name;
                         desc_text := strip (default [] (desc handler));
                         permission := permission_level |}
            else None
        | None => None
        end
      else None
  end.

Definition internal_name (star : StarMetadata) : pystr :=
  getattr (name star) unknown_plugin.

(** The fixed exclusion set. *)
Definition excluded (star : StarMetadata) : bool :=
  bool_decide (internal_name star = str "astrbot")
  || bool_decide (internal_name star = str "astrbot_plugin_help")
  || bool_decide (internal_name star = str "astrbot-reminder").

(** The builtin-commands plugin while [show_builtin_cmds] is false. *)
Definition hidden_builtin (config : Config) (star : StarMetadata) : bool :=
  bool_decide (internal_name star = str "builtin_commands")
  && negb (truthy (getattr (show_builtin_cmds config) (PBool true))).

(** Name, module path and instance pass the check of lines 129-133. *)
Definition valid (star : StarMetadata) : bool :=
  str_truthy (internal_name star)
  && path_truthy (module_path star)
  && isinstance_Star (star_cls star).

(** A plugin whose handlers are scanned. *)
Definition eligible (config : Config) (star : StarMetadata) : bool :=
  negb (excluded star) && negb (hidden_builtin config star) && valid star.

(** The group and entry of every qualifying handler of a plugin, in registry
    order, before duplicates are dropped. *)
Definition star_candidates (config : Config) (display_name_map : gmap pystr pystr)
    (registry : list RegistryItem) (star : StarMetadata) : list (pystr * CommandEntry) :=
  if eligible config star then
    (λ e, (plugin_displayname_of display_name_map star, e))
      <$> omap (handler_entry config (default [] (module_path star))) registry
  else [].

(** The same over all activated plugins, in scan order. *)
Definition candidates (config : Config) (registry : list RegistryItem)
    (stars : list StarMetadata) : list (pystr * CommandEntry) :=
  filter (λ star, activated star = true) stars
    ≫= star_candidates config (spec_display_name_map (plugin_display_names config))
         registry.

(** The candidates of one group. *)
Definition candidates_of (g : pystr) (cands : list (pystr * CommandEntry))
  : list CommandEntry :=
  snd <$> filter (λ ge, ge.1 = g) cands.

(** The set of dedupe keys mirrors the entries of every group. *)
Definition keys_ok (st : Locals) : Prop :=
  ∀ g, default ∅ (plugin_command_keys st !! g)
       = list_to_set (dedupe_key <$> group g (plugin_commands st)).

(** Each element kept at its first occurrence only. *)
Fixpoint dedup_first (l : list CommandEntry) : list CommandEntry :=
  match l with
  | [] => []
  | e :: l' => e :: filter (λ e', e' ≠ e) (dedup_first l')
  end.

(** The first non-empty string of a priority list; the last one when all
    are empty. *)
Fixpoint first_nonempty (l : list pystr) : pystr :=
  match l with
  | [] => []
  | [s] => s
  | s :: l' => if str_truthy s then s else first_nonempty l'
  end.

(** A configuration on which every lookup fails, so that every default of
    [getattr] applies. *)
Definition default_config : Config :=
  {| show_all_cmds := None; show_builtin_cmds := None; plugin_display_names := None |}.

Definition show_all_config : Config :=
  {| show_all_cmds := Some (PBool true);
     show_builtin_cmds := None;
     plugin_display_names := None |}.

Definition hide_builtin_config : Config :=
  {| show_all_cmds := None;
     show_builtin_cmds := Some (PBool false);
     plugin_display_names := None |}.

Definition foo_config : Config :=
  {| show_all_cmds := None;
     show_builtin_cmds := None;
     plugin_display_names := Some (PList [PStr (str "foo:Foo Tools")]) |}.

(** A plugin with the given internal name and module path, activated, with a
    [Star] instance and no native display name. *)
Definition plugin (plugin_name module : string) : StarMetadata :=
  {| name := Some (str plugin_name);
     display_name := None;
     star_cls := Some StarInstance;
     module_path := Some (str module);
     activated := true |}.

Definition weather_star : StarMetadata := plugin "weather" "plugins.weather".
Definition core_star : StarMetadata := plugin "astrbot" "astrbot.core".
Definition builtin_star : StarMetadata := plugin "builtin_commands" "astrbot.builtin".
Definition foo_star : StarMetadata := plugin "foo" "plugins.foo".

Definition today_handler : StarHandlerMetadata :=
  {| handler_module_path := str "plugins.weather";
     desc := Some (str " show today's weather ");
     event_filters := [CommandFilter (str "today")] |}.

Definition ban_handler : StarHandlerMetadata :=
  {| handler_module_path := str "plugins.weather";
     desc := Some (str "ban a user");
     event_filters := [PermissionTypeFilter ADMIN; CommandFilter (str "ban")] |}.

Definition op_handler : StarHandlerMetadata :=
  {| handler_module_path := str "astrbot.core";
     desc := None;
     event_filters := [CommandFilter (str "op"); PermissionTypeFilter ADMIN] |}.

Definition help_handler : StarHandlerMetadata :=
  {| handler_module_path := str "astrbot.builtin";
     desc := Some (str "help");
     event_filters := [CommandFilter (str "help")] |}.

Definition foo_handler : StarHandlerMetadata :=
  {| handler_module_path := str "plugins.foo";
     desc := None;
     event_filters := [CommandGroupFilter (str "foo")] |}.

(** A handler whose first command filter has an empty name. *)
Definition unnamed_handler : StarHandlerMetadata :=
  {| handler_module_path := str "plugins.weather";
     desc := Some (str "unnamed");
     event_filters := [OtherFilter; CommandFilter []; CommandGroupFilter (str "later")] |}.

Definition today_entry : CommandEntry :=
  {| command := str "today";
     desc_text := str "show today's weather";
     permission := str "everyone" |}.

Definition ban_entry : CommandEntry :=
  {| command := str "ban"; desc_text := str "ban a user"; permission := str "admin" |}.

Definition help_entry : CommandEntry :=
  {| command := str "help"; desc_text := str "help"; permission := str "everyone" |}.

Definition foo_entry : CommandEntry :=
  {| command := str "foo"; desc_text := []; permission := str "everyone" |}.

Definition weather_registry : list RegistryItem :=
  [Handler today_handler; Handler ban_handler; NotHandler; Handler today_handler].

Definition weather_host : Host :=
  {| get_all_stars := Return [weather_star];
     star_handlers_registry := weather_registry |}.

(** The core plugin with an admin command of its own. *)
Definition core_host : Host :=
  {| get_all_stars := Return [core_star];
     star_handlers_registry := [Handler op_handler] |}.

Definition builtin_host : Host :=
  {| get_all_stars := Return [builtin_star];
     star_handlers_registry := [Handler help_handler] |}.

Definition foo_host : Host :=
  {| get_all_stars := Return [foo_star];
     star_handlers_registry := [Handler foo_handler] |}.

(** ** The claim on admin commands, as the specification states it

    With [show_all_cmds] true, every command of the handler data classified
    "admin" is found in the returned catalog. *)
Definition admin_commands_all_listed (host : Host) (config : Config) : Prop :=
  truthy (getattr (show_all_cmds config) (PBool false)) = true →
  ∀ h n,
    Handler h ∈ star_handlers_registry host →
    find_command_name (event_filters h) = Some n →
    n ≠ [] →
    _get_permission_level (event_filters h) = str "admin" →
    ∃ catalog g es e,
      returned (get_all_commands host config) = Some catalog
      ∧ (g, es) ∈ catalog ∧ e ∈ es ∧ command e = n.

(** A host whose plugin registry cannot be fetched. *)
Definition failing_host : Host :=
  {| get_all_stars := Raise (HostError (str "registry unavailable"));
     star_handlers_registry := weather_registry |}.

(** The configuration object of the host when it holds none of the three
    keys: each lookup yields the value [None]. *)
Definition missing_key_config : Config :=
  {| show_all_cmds := Some PNone;
     show_builtin_cmds := Some PNone;
     plugin_display_names := Some PNone |}.

(** [config] with [show_builtin_cmds] set to [True]. *)
Definition with_builtin_shown (config : Config) : Config :=
  {| show_all_cmds := show_all_cmds config;
     show_builtin_cmds := Some (PBool true);
     plugin_display_names := plugin_display_names config |}.

(** The name a command or group filter carries. *)
Definition filter_name (f : EventFilter) : option pystr :=
  match f with
  | CommandFilter command_name => Some command_name
  | CommandGroupFilter group_name => Some group_name
  | _ => None
  end.

(** ** [get_help]

    The drawer of the plugin ([AstrBotHelpDrawer.draw_help_image]) is taken
    as a function from the catalog to the image bytes, or to the exception
    it raises. *)

Abbreviation image_bytes := (list Byte.byte).

Abbreviation Drawer := (Catalog → outcome image_bytes).

(** A message component: [Image.fromBytes(image)]. *)
Inductive Component : Type :=
  | Image_fromBytes (image : image_bytes).

(** What the handler yields: [event.plain_result(text)] or
    [event.chain_result(chain)]. *)
Inductive MessageEventResult : Type :=
  | plain_result (text : pystr)
  | chain_result (chain : list Component).

(** The text of the plain reply of line 33 ("no plugin or command found"). *)
Definition no_commands_text : pystr :=
  [27809; 26377; 25214; 21040; 20219; 20309; 25554; 20214; 25110; 21629; 20196].

(** [not help_msg] for a dictionary. *)
Definition dict_falsy (d : Catalog) : bool :=
  match d with [] => true | _ => false end.

(** The results the generator yields before it ends, or the exception that
    escapes it. *)
Definition get_help (host : Host) (config : Config) (draw_help_image : Drawer)
  : M (list MessageEventResult) :=
  let* help_msg := get_all_commands host config in
  if dict_falsy help_msg then
    ret [plain_result no_commands_text]
  else
    let* image := ([], draw_help_image help_msg) in
    ret [chain_result [Image_fromBytes image]].

(** ** Further vocabulary *)

(** Each element of a list kept at its first occurrence only. *)
Fixpoint first_occurrences {A} `{EqDecision A} (l : list A) : list A :=
  match l with
  | [] => []
  | x :: l' => x :: filter (λ y, y ≠ x) (first_occurrences l')
  end.

(** The warning the plugin loop logs for a plugin: one record when the plugin
    passes both skip tests and fails the metadata check. *)
Definition warnings_of (config : Config) (star : StarMetadata) : list LogRecord :=
  if negb (excluded star) && negb (hidden_builtin config star) && negb (valid star)
  then [LogWarningInvalid (internal_name star) (module_path star)]
  else [].

(** A string that neither starts nor ends with a whitespace character. *)
Definition trimmed (s : pystr) : Prop := lstrip s = s ∧ rstrip s = s.

(** The three permission levels. *)
Definition is_permission_level (p : pystr) : Prop :=
  p = str "admin" ∨ p = str "member" ∨ p = str "everyone".

(** A drawer that fails, and one that returns a fixed image. *)
Definition failing_drawer : Drawer := λ _, Raise (HostError (str "cannot draw")).
Definition blank_drawer : Drawer := λ _, Return [Byte.x89; Byte.x50].

(** A second plugin shown under the name of the first, with a handler of its
    own and one that repeats a command of the first. *)
Definition forecast_star : StarMetadata :=
  {| name := Some (str "forecast");
     display_name := Some (str " weather ");
     star_cls := Some StarInstance;
     module_path := Some (str "plugins.forecast");
     activated := true |}.

Definition week_handler : StarHandlerMetadata :=
  {| handler_module_path := str "plugins.forecast";
     desc := None;
     event_filters := [CommandFilter (str "week")] |}.

Definition today_again_handler : StarHandlerMetadata :=
  {| handler_module_path := str "plugins.forecast";
     desc := Some (str "show today's weather");
     event_filters := [CommandFilter (str "today")] |}.

Definition week_entry : CommandEntry :=
  {| command := str "week"; desc_text := []; permission := str "everyone" |}.

(** A descriptor without module path and without instance. *)
Definition broken_star : StarMetadata :=
  {| name := Some (str "broken");
     display_name := None;
     star_cls := None;
     module_path := None;
     activated := true |}.

Definition merged_host : Host :=
  {| get_all_stars := Return [weather_star; broken_star; forecast_star];
     star_handlers_registry :=
       [Handler today_handler; Handler week_handler; Handler today_again_handler] |}.

(** The entries the handlers of a plugin qualify for, in registry order. *)
Definition plugin_entries (config : Config) (registry : list RegistryItem)
    (star : StarMetadata) : list CommandEntry :=
  omap (handler_entry config (default [] (module_path star))) registry.

(** An activated, scanned plugin with at least one qualifying handler. *)
Definition has_listed_command (config : Config) (registry : list RegistryItem)
    (star : StarMetadata) : bool :=
  activated star && eligible config star
  && bool_decide (plugin_entries config registry star ≠ []).

(** The log of a call of [get_all_commands]. *)
Definition log_of (host : Host) (config : Config) : list LogRecord :=
  match get_all_stars host with
  | Raise e => [LogErrorFetch e]
  | Return stars =>
      let active := filter (λ star, activated star = true) stars in
      LogDebugActivated (length active)
      :: match active with
         | [] => [LogWarningNoPlugins]
         | _ => active ≫= warnings_of config
         end
  end.

(** The catalog of a call of [get_all_commands]. *)
Definition catalog_of (host : Host) (config : Config) : Catalog :=
  match get_all_stars host with
  | Raise _ => []
  | Return stars =>
      foldl catalog_add [] (candidates config (star_handlers_registry host) stars)
  end.

(** A drawer that draws like [blank_drawer] but fails on an empty catalog. *)
Definition picky_drawer : Drawer := λ catalog,
  match catalog with
  | [] => Raise (HostError (str "nothing to draw"))
  | _ => Return [Byte.x89; Byte.x50]
  end.

(** * Properties *)

(** ** Strings *)

Section strings.
Implicit Types s x ws : pystr.

Lemma lstrip_app_space ws x : all_space ws → lstrip (ws ++ x) = lstrip x.
Proof. induction 1 as [|c ws Hc _ IH]; simpl; [done|]. by rewrite Hc. Qed.

Lemma lstrip_split s : ∃ ws, all_space ws ∧ s = ws ++ lstrip s.
Proof.
  induction s as [|c s [ws [Hws Hs]]]; simpl.
  - exists []. split; [constructor|done].
  - destruct (is_space c) eqn:Hc.
    + exists (c :: ws). split; [by constructor|]. simpl. by f_equal.
    + exists []. split; [constructor|done].
Qed.

Lemma lstrip_nil_space s : lstrip s = [] → all_space s.
Proof.
  induction s as [|c s IH]; simpl; [constructor|].
  destruct (is_space c) eqn:Hc; [|done]. intros H. constructor; [done|by apply IH].
Qed.

Lemma lstrip_space_nil ws : all_space ws → lstrip ws = [].
Proof. intros H. rewrite <-(app_nil_r ws). by rewrite lstrip_app_space. Qed.

Lemma lstrip_app_cons s x : lstrip s ≠ [] → lstrip (s ++ x) = lstrip s ++ x.
Proof.
  induction s as [|c s IH]; simpl; [done|].
  destruct (is_space c); [exact IH|done].
Qed.

Lemma all_space_reverse ws : all_space ws → all_space (reverse ws).
Proof. unfold all_space. by rewrite Forall_reverse. Qed.

Lemma rstrip_app_space x ws : all_space ws → rstrip (x ++ ws) = rstrip x.
Proof.
  intros H. unfold rstrip. rewrite reverse_app.
  by rewrite lstrip_app_space by by apply all_space_reverse.
Qed.

Lemma rstrip_split s : ∃ ws, all_space ws ∧ s = rstrip s ++ ws.
Proof.
  destruct (lstrip_split (reverse s)) as [ws [Hws Hs]].
  exists (reverse ws). split; [by apply all_space_reverse|].
  unfold rstrip. rewrite <-reverse_app, <-Hs. by rewrite reverse_involutive.
Qed.

Lemma strip_split s : ∃ ws1 ws2, all_space ws1 ∧ all_space ws2 ∧ s = ws1 ++ strip s ++ ws2.
Proof.
  destruct (lstrip_split s) as [ws1 [H1 Hs1]].
  destruct (rstrip_split (lstrip s)) as [ws2 [H2 Hs2]].
  exists ws1, ws2. unfold strip. by rewrite <-Hs2.
Qed.

Lemma strip_space_l ws x : all_space ws → strip (ws ++ x) = strip x.
Proof. intros H. unfold strip. by rewrite lstrip_app_space. Qed.

Lemma strip_space_r x ws : all_space ws → strip (x ++ ws) = strip x.
Proof.
  intros H. unfold strip. destruct (lstrip x) as [|c r] eqn:Hx.
  - rewrite lstrip_space_nil; [done|].
    apply Forall_app. split; [by apply lstrip_nil_space|done].
  - rewrite lstrip_app_cons by by rewrite Hx.
    rewrite Hx. by apply rstrip_app_space.
Qed.

Lemma is_space_colon : is_space colon = false.
Proof. reflexivity. Qed.

Lemma all_space_no_colon ws : all_space ws → colon ∉ ws.
Proof.
  intros H Hin. unfold all_space in H. rewrite ->Forall_forall in H.
  apply H in Hin. by rewrite is_space_colon in Hin.
Qed.
End strings.

Section split.
Implicit Types s x ws : pystr.
Variable sep : N.

Lemma str_split1_contains s :
  sep ∈ s → str_split1 sep s = [before_first sep s; after_first sep s].
Proof.
  induction s as [|c s IH]; simpl.
  - by intros ?%elem_of_nil.
  - destruct (N.eqb_spec c sep) as [->|Hne]; [done|].
    intros [?|Hin]%elem_of_cons; [congruence|]. by rewrite IH.
Qed.

Lemma before_first_app_l ws x :
  sep ∉ ws → before_first sep (ws ++ x) = ws ++ before_first sep x.
Proof.
  induction ws as [|c ws IH]; simpl; [done|].
  intros [Hc Hws]%not_elem_of_cons.
  destruct (N.eqb_spec c sep); [congruence|]. by rewrite IH.
Qed.

Lemma after_first_app_l ws x :
  sep ∉ ws → after_first sep (ws ++ x) = after_first sep x.
Proof.
  induction ws as [|c ws IH]; simpl; [done|].
  intros [Hc Hws]%not_elem_of_cons.
  destruct (N.eqb_spec c sep); [congruence|]. by rewrite IH.
Qed.

Lemma before_first_app_r s x :
  sep ∈ s → before_first sep (s ++ x) = before_first sep s.
Proof.
  induction s as [|c s IH]; simpl.
  - by intros ?%elem_of_nil.
  - destruct (N.eqb_spec c sep) as [->|Hne]; [done|].
    intros [?|Hin]%elem_of_cons; [congruence|]. by rewrite IH.
Qed.

Lemma after_first_app_r s x :
  sep ∈ s → after_first sep (s ++ x) = after_first sep s ++ x.
Proof.
  induction s as [|c s IH]; simpl.
  - by intros ?%elem_of_nil.
  - destruct (N.eqb_spec c sep) as [->|Hne]; [done|].
    intros [?|Hin]%elem_of_cons; [congruence|]. by rewrite IH.
Qed.
End split.

Lemma str_contains_strip s : str_contains colon (strip s) = str_contains colon s.
Proof.
  destruct (strip_split s) as (ws1 & ws2 & H1 & H2 & Hs).
  apply all_space_no_colon in H1, H2.
  unfold str_contains. apply bool_decide_ext.
  rewrite ->Hs at 2. rewrite !elem_of_app. tauto.
Qed.

(** On an entry that has a colon, splitting the trimmed entry and splitting
    the entry itself give the same trimmed key and value. *)
Lemma split_strip s :
  colon ∈ strip s →
  strip (before_first colon (strip s)) = strip (before_first colon s)
  ∧ strip (after_first colon (strip s)) = strip (after_first colon s).
Proof.
  intros Hin. destruct (strip_split s) as (ws1 & ws2 & H1 & H2 & Hs).
  rewrite ->Hs at 2 4.
  rewrite before_first_app_l, after_first_app_l by by apply all_space_no_colon.
  rewrite before_first_app_r, after_first_app_r by done.
  by rewrite strip_space_l, strip_space_r.
Qed.

Lemma display_name_item_spec mapping item :
  display_name_item mapping item = ret (spec_insert mapping item).
Proof.
  unfold spec_insert. destruct item as [| | |s|]; simpl; try done.
  rewrite <-(str_contains_strip s).
  destruct (str_contains colon (strip s)) eqn:Hc.
  - apply bool_decide_eq_true in Hc.
    assert (str_truthy (strip s) = true) as ->
      by (destruct (strip s); [by apply elem_of_nil in Hc|done]).
    simpl. rewrite str_split1_contains by done.
    destruct (split_strip s Hc) as [-> ->].
    by destruct (str_truthy _ && str_truthy _).
  - by rewrite orb_true_r.
Qed.

Lemma for_each_pure {A S} (body : S → A → M S) (f : S → A → S) l s :
  (∀ s x, body s x = ret (f s x)) → for_each body l s = ret (foldl f s l).
Proof.
  intros Hbody. revert s. induction l as [|x l IH]; intros s; simpl; [done|].
  rewrite Hbody. simpl. rewrite IH. done.
Qed.

(** ** The display-name map *)

Lemma spec_insert_other m item k :
  fst <$> spec_entry item ≠ Some k → spec_insert m item !! k = m !! k.
Proof.
  unfold spec_insert. destruct (spec_entry item) as [[k' v']|]; simpl; [|done].
  intros Hne. apply lookup_insert_ne. congruence.
Qed.

Lemma spec_fold_other l m k :
  Forall (λ item, fst <$> spec_entry item ≠ Some k) l →
  foldl spec_insert m l !! k = m !! k.
Proof.
  intros Hl. revert m. induction Hl as [|item l Hitem _ IH]; intros m; simpl; [done|].
  by rewrite IH, spec_insert_other.
Qed.

Lemma spec_fold_origin l m k v :
  foldl spec_insert m l !! k = Some v →
  m !! k = Some v ∨ ∃ item, item ∈ l ∧ spec_entry item = Some (k, v).
Proof.
  revert m. induction l as [|item l IH]; intros m; simpl; [by left|].
  intros [Hm|(item' & Hin & Hitem')]%IH.
  - unfold spec_insert in Hm. destruct (spec_entry item) as [[k' v']|] eqn:Hitem.
    + destruct (decide (k' = k)) as [->|Hne].
      * rewrite lookup_insert_eq in Hm. injection Hm as ->.
        right. exists item. split; [by left|done].
      * rewrite lookup_insert_ne in Hm by done. by left.
    + by left.
  - right. exists item'. split; [by right|done].
Qed.

Lemma display_name_map_eq (config : Config) :
  _get_plugin_display_name_map config
    = ret (spec_display_name_map (plugin_display_names config)).
Proof.
  unfold _get_plugin_display_name_map, spec_display_name_map, getattr, py_or.
  destruct (plugin_display_names config) as [v|]; simpl; [|done].
  destruct v as [| b | z | s | l]; simpl; try done.
  - by destruct b.
  - by destruct (Z.eqb z 0).
  - by destruct s.
  - destruct l as [|item l]; [done|].
    apply (for_each_pure display_name_item spec_insert), display_name_item_spec.
Qed.

(** C4: [_get_plugin_display_name_map] returns, without raising or logging,
    the mapping the specification describes: the configured list is scanned
    in order, an entry counts only if it is a string with a colon whose text
    before the first colon and text after it are both non-empty once trimmed,
    and a later entry for a key overwrites an earlier one. Every binding of
    the mapping comes from such an entry; a configured value that is not a
    list, and a missing option, give the empty mapping. *)
Theorem display_name_map_as_specified (config : Config) :
  _get_plugin_display_name_map config
    = ([], Return (spec_display_name_map (plugin_display_names config)))
  ∧ (∀ v, plugin_display_names config = Some v → is_list v = false →
       _get_plugin_display_name_map config = ([], Return ∅))
  ∧ (plugin_display_names config = None →
       _get_plugin_display_name_map config = ([], Return ∅))
  ∧ (∀ before item after key value,
       plugin_display_names config = Some (PList (before ++ item :: after)) →
       spec_entry item = Some (key, value) →
       Forall (λ later, fst <$> spec_entry later ≠ Some key) after →
       ∃ mapping, returned (_get_plugin_display_name_map config) = Some mapping
                  ∧ mapping !! key = Some value)
  ∧ (∀ mapping key value,
       returned (_get_plugin_display_name_map config) = Some mapping →
       mapping !! key = Some value →
       ∃ entries item, plugin_display_names config = Some (PList entries)
                       ∧ item ∈ entries ∧ spec_entry item = Some (key, value)).
Proof.
  pose proof (display_name_map_eq config) as Heq. unfold ret in Heq.
  split; [exact Heq|]. rewrite Heq. simpl. repeat split.
  - intros v -> Hv. by destruct v.
  - by intros ->.
  - intros before item after key value -> Hitem Hafter.
    eexists. split; [done|]. simpl.
    rewrite foldl_app. simpl. rewrite spec_fold_other by done.
    unfold spec_insert at 1. rewrite Hitem. apply lookup_insert_eq.
  - intros mapping key value [= <-] Hlookup.
    destruct (plugin_display_names config) as [[| | | |entries]|]; simpl in Hlookup;
      try by rewrite lookup_empty in Hlookup.
    apply spec_fold_origin in Hlookup as [Hempty|(item & Hin & Hitem)].
    + by rewrite lookup_empty in Hempty.
    + by exists entries, item.
Qed.

Lemma display_name_map_as_specified_witness :
  (∀ key, spec_display_name_map (plugin_display_names sample_config) !! key
          = (<[str "weather" := str "Sky"]> (<[str "a" := str "b:c"]> ∅)
              : gmap pystr pystr) !! key)
  ∧ ∃ mapping, returned (_get_plugin_display_name_map sample_config) = Some mapping
               ∧ mapping !! str "a" = Some (str "b:c").
Proof.
  destruct (display_name_map_as_specified sample_config) as (Heq & _ & _ & Hlast & _).
  split.
  - intros key. vm_compute spec_display_name_map. done.
  - apply (Hlast [PStr (str " weather : Wx "); PInt 3; PStr (str "nocolon")]
             (PStr (str "a:b:c")) [PStr (str ": x"); PStr (str "weather:Sky")]).
    + reflexivity.
    + reflexivity.
    + repeat constructor; vm_compute; congruence.
Defined.

(** ** The permission classifier *)

(** C5: [_get_permission_level] is decided by the first [PermissionTypeFilter]
    of the sequence: "admin" if its tier is [ADMIN], "member" for any other
    tier, whatever follows it; a sequence without such a filter is classified
    "everyone". *)
Theorem permission_level_first_filter (event_filters : list EventFilter) :
  (Forall (λ f, is_permission_filter f = false) event_filters →
     _get_permission_level event_filters = str "everyone")
  ∧ (∀ before tier after,
       event_filters = before ++ PermissionTypeFilter tier :: after →
       Forall (λ f, is_permission_filter f = false) before →
       _get_permission_level event_filters
         = match tier with ADMIN => str "admin" | _ => str "member" end).
Proof.
  split.
  - induction 1 as [|f l Hf _ IH]; [done|]. by destruct f.
  - intros before tier after -> Hbefore.
    induction Hbefore as [|f l Hf _ IH]; [done|]. by destruct f.
Qed.

Lemma permission_level_first_filter_witness :
  _get_permission_level [OtherFilter; CommandFilter (str "ban")] = str "everyone"
  ∧ _get_permission_level
      [CommandFilter (str "ban"); PermissionTypeFilter MEMBER; PermissionTypeFilter ADMIN]
    = str "member".
Proof.
  split.
  - apply (permission_level_first_filter [OtherFilter; CommandFilter (str "ban")]).
    repeat constructor.
  - apply (proj2 (permission_level_first_filter
             [CommandFilter (str "ban"); PermissionTypeFilter MEMBER;
              PermissionTypeFilter ADMIN])
             [CommandFilter (str "ban")] MEMBER [PermissionTypeFilter ADMIN]).
    + reflexivity.
    + repeat constructor.
Defined.

(** ** The ordered dictionary *)

Lemma group_append_eq g e d : group g (dict_append g e d) = group g d ++ [e].
Proof.
  unfold group. induction d as [|[k v] d IH]; simpl.
  - by rewrite bool_decide_eq_true_2.
  - destruct (decide (k = g)) as [->|Hne].
    + rewrite !bool_decide_eq_true_2 by done. simpl.
      by rewrite bool_decide_eq_true_2.
    + rewrite !bool_decide_eq_false_2 by done. simpl.
      by rewrite bool_decide_eq_false_2.
Qed.

Lemma group_append_ne g g' e d : g ≠ g' → group g' (dict_append g e d) = group g' d.
Proof.
  intros Hne. unfold group. induction d as [|[k v] d IH]; simpl.
  - by rewrite bool_decide_eq_false_2.
  - destruct (decide (k = g)) as [->|Hk].
    + rewrite bool_decide_eq_true_2 by done. simpl.
      by rewrite !bool_decide_eq_false_2.
    + rewrite bool_decide_eq_false_2 by done. simpl.
      destruct (bool_decide (k = g')); [done|exact IH].
Qed.

Lemma dict_append_keys g e d :
  (dict_append g e d).*1 = if bool_decide (g ∈ d.*1) then d.*1 else d.*1 ++ [g].
Proof.
  induction d as [|[k v] d IH]; csimpl; [done|].
  destruct (decide (k = g)) as [->|Hk].
  - rewrite !bool_decide_eq_true_2; [done|by left|done].
  - rewrite bool_decide_eq_false_2 by done. csimpl. rewrite IH.
    destruct (decide (g ∈ d.*1)) as [Hin|Hnin].
    + rewrite !bool_decide_eq_true_2; [done|by right|done].
    + rewrite !bool_decide_eq_false_2; [done| |done].
      intros [?|?]%elem_of_cons; [congruence|done].
Qed.

Lemma dict_lookup_elem_of g es (d : Catalog) :
  NoDup d.*1 → (g, es) ∈ d ↔ dict_lookup g d = Some es.
Proof.
  induction d as [|[k v] d IH]; csimpl.
  - intros _. split; [by intros ?%elem_of_nil|done].
  - intros [Hk Hd]%NoDup_cons. rewrite elem_of_cons, (IH Hd).
    destruct (decide (k = g)) as [->|Hne].
    + rewrite bool_decide_eq_true_2 by done. split.
      * intros [[= ->]|Hl]; [done|].
        apply (IH Hd) in Hl. destruct Hk.
        by apply (list_elem_of_fmap_2 fst) in Hl.
      * intros [= ->]. by left.
    + rewrite bool_decide_eq_false_2 by done. split; [|by right].
      intros [[= ? ?]|?]; [congruence|done].
Qed.

(** ** The loop over the handler registry *)

Lemma dedupe_key_inj e1 e2 : dedupe_key e1 = dedupe_key e2 ↔ e1 = e2.
Proof.
  split; [|by intros ->]. destruct e1, e2. unfold dedupe_key. simpl. by intros [= -> -> ->].
Qed.

Lemma dedupe_key_seen e (l : list CommandEntry) :
  dedupe_key e ∈ (list_to_set (dedupe_key <$> l) : gset DedupeKey) ↔ e ∈ l.
Proof.
  rewrite elem_of_list_to_set, list_elem_of_fmap. split.
  - by intros (e' & ->%dedupe_key_inj & Hin).
  - intros Hin. by exists e.
Qed.

Lemma keys_getitem_default g g' keys :
  (keys_getitem g keys).1 = default ∅ (keys !! g)
  ∧ default ∅ ((keys_getitem g keys).2 !! g') = default ∅ (keys !! g').
Proof.
  unfold keys_getitem. destruct (keys !! g) as [s|] eqn:Hg; simpl; [done|].
  split; [done|]. destruct (decide (g = g')) as [->|Hne].
  - by rewrite lookup_insert_eq, Hg.
  - by rewrite lookup_insert_ne.
Qed.

Lemma process_handler_spec config g mp st item :
  keys_ok st →
  keys_ok (process_handler config g mp st item)
  ∧ plugin_commands (process_handler config g mp st item)
    = match handler_entry config mp item with
      | Some e => catalog_add (plugin_commands st) (g, e)
      | None => plugin_commands st
      end.
Proof.
  intros Hok. destruct item as [h|]; simpl; [|done].
  destruct (decide (handler_module_path h = mp)) as [Hmp|Hmp].
  2:{ rewrite bool_decide_eq_true_2, bool_decide_eq_false_2 by done. done. }
  rewrite bool_decide_eq_false_2, bool_decide_eq_true_2 by auto.
  destruct (find_command_name (event_filters h)) as [n|]; [|done].
  destruct (str_truthy n); [|done].
  destruct (_should_include_command config _); simpl; [|done].
  set (e := {| command := n; desc_text := strip (default [] (desc h));
               permission := _get_permission_level (event_filters h) |}).
  change (n, strip (default [] (desc h)), _get_permission_level (event_filters h))
    with (dedupe_key e).
  destruct (keys_getitem g (plugin_command_keys st)) as [seen keys] eqn:Hget.
  assert (seen = list_to_set (dedupe_key <$> group g (plugin_commands st))) as Hseen.
  { rewrite <-Hok. pose proof (keys_getitem_default g g (plugin_command_keys st)) as [H _].
    by rewrite Hget in H. }
  assert (∀ g', default ∅ (keys !! g') = default ∅ (plugin_command_keys st !! g')) as Hkeys.
  { intros g'. pose proof (keys_getitem_default g g' (plugin_command_keys st)) as [_ H].
    by rewrite Hget in H. }
  unfold catalog_add. simpl.
  destruct (decide (e ∈ group g (plugin_commands st))) as [Hin|Hnin].
  - rewrite !bool_decide_eq_true_2; [|done|by rewrite Hseen, dedupe_key_seen].
    split; [|done]. intros g'. simpl. by rewrite Hkeys.
  - rewrite !bool_decide_eq_false_2; [|done|by rewrite Hseen, dedupe_key_seen].
    destruct (keys_getitem g keys) as [seen' keys'] eqn:Hget'.
    split; [|done]. intros g'. simpl.
    destruct (decide (g = g')) as [<-|Hne].
    + rewrite lookup_insert_eq, group_append_eq. simpl.
      pose proof (keys_getitem_default g g keys) as [H _].
      rewrite Hget' in H. simpl in H. rewrite H, Hkeys, Hok.
      rewrite fmap_app, list_to_set_app_L. simpl. by rewrite union_empty_r_L.
    + rewrite lookup_insert_ne, group_append_ne by done.
      pose proof (keys_getitem_default g g' keys) as [_ H].
      rewrite Hget' in H. simpl in H. by rewrite H, Hkeys.
Qed.

Lemma registry_loop_spec config g mp registry st :
  keys_ok st →
  keys_ok (foldl (process_handler config g mp) st registry)
  ∧ plugin_commands (foldl (process_handler config g mp) st registry)
    = foldl catalog_add (plugin_commands st)
        ((λ e, (g, e)) <$> omap (handler_entry config mp) registry).
Proof.
  revert st. induction registry as [|item registry IH]; intros st Hok; simpl; [done|].
  destruct (process_handler_spec config g mp st item Hok) as [Hok' Hcmds].
  destruct (IH _ Hok') as [Hok'' ->]. split; [done|]. rewrite Hcmds.
  by destruct (handler_entry config mp item).
Qed.

(** ** The loop over the plugins *)

Lemma process_star_spec config display_name_map registry st star :
  keys_ok st →
  ∃ log st',
    process_star config display_name_map registry st star = (log, Return st')
    ∧ keys_ok st'
    ∧ plugin_commands st'
      = foldl catalog_add (plugin_commands st)
          (star_candidates config display_name_map registry star).
Proof.
  intros Hok. unfold process_star, star_candidates, eligible, excluded,
    hidden_builtin, valid, internal_name.
  destruct (_ || _ || _) eqn:Hexcl; simpl.
  { by exists [], st. }
  destruct (_ && negb _) eqn:Hbuiltin; simpl.
  { by exists [], st. }
  destruct (str_truthy _); simpl.
  2:{ eexists _, st. by split. }
  destruct (path_truthy _); simpl.
  2:{ eexists _, st. by split. }
  destruct (isinstance_Star _); simpl.
  2:{ eexists _, st. by split. }
  eexists [], _. split; [done|]. by apply registry_loop_spec.
Qed.

Lemma plugin_loop_spec config display_name_map registry stars st :
  keys_ok st →
  ∃ log st',
    for_each (process_star config display_name_map registry) stars st = (log, Return st')
    ∧ keys_ok st'
    ∧ plugin_commands st'
      = foldl catalog_add (plugin_commands st)
          (stars ≫= star_candidates config display_name_map registry).
Proof.
  revert st. induction stars as [|star stars IH]; intros st Hok; simpl.
  { by exists [], st. }
  destruct (process_star_spec config display_name_map registry st star Hok)
    as (log1 & st1 & -> & Hok1 & Hcmds1).
  destruct (IH st1 Hok1) as (log2 & st2 & Hrun & Hok2 & Hcmds2).
  simpl. rewrite Hrun. exists (log1 ++ log2), st2. split; [done|]. split; [done|].
  by rewrite Hcmds2, Hcmds1, foldl_app.
Qed.

Lemma keys_ok_init : keys_ok {| plugin_commands := []; plugin_command_keys := ∅ |}.
Proof. intros g. simpl. by rewrite lookup_empty. Qed.

(** The catalog of a call: the candidates of the activated plugins, added in
    scan order; empty when the fetch fails. *)
Lemma get_all_commands_spec host config :
  ∃ log,
    get_all_commands host config
    = (log, Return match get_all_stars host with
                   | Return stars =>
                       foldl catalog_add []
                         (candidates config (star_handlers_registry host) stars)
                   | Raise _ => []
                   end).
Proof.
  unfold get_all_commands, candidates.
  destruct (get_all_stars host) as [stars|e]; simpl; [|by eexists].
  destruct (filter _ stars) as [|star rest] eqn:Hact; simpl; [by eexists|].
  rewrite display_name_map_eq. simpl.
  destruct (plugin_loop_spec config
              (spec_display_name_map (plugin_display_names config))
              (star_handlers_registry host) (star :: rest) _ keys_ok_init)
    as (log & st & Hrun & _ & Hcmds).
  simpl in Hrun. rewrite Hrun. simpl. eexists. by rewrite Hcmds.
Qed.

(** ** Groups and duplicates *)

Lemma elem_of_dedup_first e l : e ∈ dedup_first l ↔ e ∈ l.
Proof.
  induction l as [|x l IH]; simpl; [done|].
  rewrite !elem_of_cons, list_elem_of_filter, IH.
  destruct (decide (e = x)); tauto.
Qed.

Lemma dedup_first_snoc l e :
  dedup_first (l ++ [e]) = if bool_decide (e ∈ l) then dedup_first l else dedup_first l ++ [e].
Proof.
  induction l as [|x l IH]; simpl; [done|]. rewrite IH.
  destruct (decide (e = x)) as [->|Hne].
  - rewrite (bool_decide_eq_true_2 (x ∈ x :: l)) by by left.
    case_bool_decide; [done|].
    rewrite filter_app, filter_cons_False, filter_nil, app_nil_r; [done|]. by intros [].
  - destruct (decide (e ∈ l)) as [Hin|Hnin].
    + rewrite (bool_decide_eq_true_2 (e ∈ l)), (bool_decide_eq_true_2 (e ∈ x :: l));
        [done|by right|done].
    + rewrite (bool_decide_eq_false_2 (e ∈ l)), (bool_decide_eq_false_2 (e ∈ x :: l));
        [|by intros [?|?]%elem_of_cons|done].
      by rewrite filter_app, filter_cons_True, filter_nil.
Qed.

Lemma NoDup_dedup_first l : NoDup (dedup_first l).
Proof.
  induction l as [|x l IH]; simpl; [constructor|].
  apply NoDup_cons. split; [|by apply NoDup_filter].
  rewrite list_elem_of_filter. by intros [? _].
Qed.

Lemma candidates_of_snoc g cands g' e :
  candidates_of g (cands ++ [(g', e)])
  = if bool_decide (g' = g) then candidates_of g cands ++ [e] else candidates_of g cands.
Proof.
  unfold candidates_of. rewrite filter_app, fmap_app.
  case_bool_decide.
  - by rewrite filter_cons_True, filter_nil.
  - by rewrite filter_cons_False, filter_nil, app_nil_r.
Qed.

Lemma elem_of_candidates_of g e cands : e ∈ candidates_of g cands ↔ (g, e) ∈ cands.
Proof.
  unfold candidates_of. rewrite list_elem_of_fmap. split.
  - intros ([g' e'] & -> & [Hg Hin]%list_elem_of_filter). simpl in *. by subst.
  - intros Hin. exists (g, e). split; [done|]. by apply list_elem_of_filter.
Qed.

(** A group of the catalog holds the candidates of that group, each at its
    first occurrence. *)
Lemma group_candidates g cands :
  group g (foldl catalog_add [] cands) = dedup_first (candidates_of g cands).
Proof.
  induction cands as [|[g' e] cands IH] using rev_ind; [done|].
  rewrite foldl_app, candidates_of_snoc. simpl.
  unfold catalog_add at 1. simpl.
  destruct (decide (g' = g)) as [->|Hne].
  - rewrite (bool_decide_eq_true_2 (g = g)) by done. rewrite dedup_first_snoc, IH.
    rewrite <-(bool_decide_ext _ _ (elem_of_dedup_first e (candidates_of g cands))).
    case_bool_decide; [done|]. by rewrite group_append_eq, IH.
  - rewrite (bool_decide_eq_false_2 (g' = g)) by done.
    case_bool_decide; [done|]. by rewrite group_append_ne.
Qed.

Lemma catalog_keys_NoDup cands : NoDup (foldl catalog_add [] cands).*1.
Proof.
  induction cands as [|[g e] cands IH] using rev_ind; [constructor|].
  rewrite foldl_app. simpl. unfold catalog_add at 1. simpl.
  case_bool_decide; [done|]. rewrite dict_append_keys.
  case_bool_decide; [done|]. apply NoDup_app. split; [done|].
  split; [|apply NoDup_singleton]. by intros x Hx ->%list_elem_of_singleton.
Qed.

(** Membership in the returned catalog, read off the candidates. *)
Lemma catalog_elem_of g es cands :
  (g, es) ∈ foldl catalog_add [] cands →
  es = dedup_first (candidates_of g cands).
Proof.
  intros Hin. apply dict_lookup_elem_of in Hin; [|apply catalog_keys_NoDup].
  rewrite <-group_candidates. unfold group. by rewrite Hin.
Qed.

(** ** Where candidates come from *)

Lemma handler_entry_Some config mp item e :
  handler_entry config mp item = Some e ↔
  ∃ h n, item = Handler h
         ∧ handler_module_path h = mp
         ∧ find_command_name (event_filters h) = Some n
         ∧ n ≠ []
         ∧ _should_include_command config (_get_permission_level (event_filters h)) = true
         ∧ e = {| command := n;
                  desc_text := strip (default [] (desc h));
                  permission := _get_permission_level (event_filters h) |}.
Proof.
  split.
  - destruct item as [h|]; simpl; [|done].
    case_bool_decide as Hmp; [|done].
    destruct (find_command_name (event_filters h)) as [n|] eqn:Hn; [|done].
    destruct (str_truthy n) eqn:Hnn; [|done].
    destruct (_should_include_command config _) eqn:Hshow; [|done].
    simpl. intros [= <-]. exists h, n. repeat split; try done. by destruct n.
  - intros (h & n & -> & Hmp & Hn & Hnn & Hshow & ->). simpl.
    rewrite bool_decide_eq_true_2, Hn, Hshow by done. by destruct n.
Qed.

Lemma elem_of_star_candidates config display_name_map registry star g e :
  (g, e) ∈ star_candidates config display_name_map registry star ↔
  eligible config star = true
  ∧ g = plugin_displayname_of display_name_map star
  ∧ ∃ item, item ∈ registry
            ∧ handler_entry config (default [] (module_path star)) item = Some e.
Proof.
  unfold star_candidates. destruct (eligible config star).
  - rewrite list_elem_of_fmap. setoid_rewrite list_elem_of_omap. split.
    + intros (e' & [= -> ->] & item & Hin & Hitem). eauto.
    + intros (_ & -> & item & Hin & Hitem). eauto.
  - split; [by intros ?%elem_of_nil|by intros [? _]].
Qed.

Lemma elem_of_candidates config registry stars g e :
  (g, e) ∈ candidates config registry stars ↔
  ∃ star, star ∈ stars
          ∧ activated star = true
          ∧ (g, e) ∈ star_candidates config
                       (spec_display_name_map (plugin_display_names config)) registry star.
Proof.
  unfold candidates. rewrite list_elem_of_bind.
  setoid_rewrite list_elem_of_filter. split.
  - intros (star & Hin & Hact & Hstar). eauto.
  - intros (star & Hstar & Hact & Hin). eauto.
Qed.

(** Plugins without candidates can be left out of the scan. *)
Lemma candidates_filter (keep : StarMetadata → bool) config registry stars :
  (∀ star display_name_map, keep star = false →
     star_candidates config display_name_map registry star = []) →
  candidates config registry (filter (λ star, keep star = true) stars)
  = candidates config registry stars.
Proof.
  intros Hnone. unfold candidates.
  induction stars as [|star stars IH]; [done|].
  destruct (keep star) eqn:Hkeep.
  - rewrite (filter_cons_True (λ star, keep star = true)) by done.
    destruct (activated star) eqn:Hact.
    + rewrite !(filter_cons_True (λ star, activated star = true)) by done.
      csimpl. by rewrite IH.
    + rewrite !(filter_cons_False (λ star, activated star = true)) by congruence.
      exact IH.
  - rewrite (filter_cons_False (λ star, keep star = true)) by congruence.
    rewrite IH. destruct (activated star) eqn:Hact.
    + rewrite (filter_cons_True (λ star, activated star = true)) by done.
      csimpl. by rewrite Hnone.
    + by rewrite (filter_cons_False (λ star, activated star = true)) by congruence.
Qed.

Lemma returned_catalog host config stars :
  get_all_stars host = Return stars →
  returned (get_all_commands host config)
  = Some (foldl catalog_add [] (candidates config (star_handlers_registry host) stars)).
Proof.
  intros Hstars. destruct (get_all_commands_spec host config) as [log ->].
  by rewrite Hstars.
Qed.

(** Every entry of the returned catalog is a candidate of its group. *)
Lemma catalog_entry_candidate host config catalog g es e :
  returned (get_all_commands host config) = Some catalog →
  (g, es) ∈ catalog → e ∈ es →
  ∃ stars, get_all_stars host = Return stars
           ∧ (g, e) ∈ candidates config (star_handlers_registry host) stars.
Proof.
  destruct (get_all_commands_spec host config) as [log ->]. simpl.
  destruct (get_all_stars host) as [stars|err]; intros [= <-] Hin He.
  - exists stars. split; [done|].
    apply catalog_elem_of in Hin. subst es.
    by apply elem_of_dedup_first, elem_of_candidates_of in He.
  - by apply elem_of_nil in Hin.
Qed.

(** Every candidate is listed in its group of the returned catalog. *)
Lemma candidate_listed host config stars g e :
  get_all_stars host = Return stars →
  (g, e) ∈ candidates config (star_handlers_registry host) stars →
  ∃ catalog es, returned (get_all_commands host config) = Some catalog
                ∧ (g, es) ∈ catalog ∧ e ∈ es.
Proof.
  intros Hstars Hin. rewrite (returned_catalog _ _ _ Hstars).
  set (cands := candidates config (star_handlers_registry host) stars) in *.
  assert (e ∈ group g (foldl catalog_add [] cands)) as He.
  { rewrite group_candidates. by apply elem_of_dedup_first, elem_of_candidates_of. }
  unfold group in He.
  destruct (dict_lookup g (foldl catalog_add [] cands)) as [es|] eqn:Hes;
    [|by apply elem_of_nil in He].
  exists (foldl catalog_add [] cands), es. split; [done|]. split; [|done].
  by apply dict_lookup_elem_of; [apply catalog_keys_NoDup|].
Qed.

(** ** Visibility of admin commands *)

(** C1: while [show_all_cmds] is false, or missing so that its default false
    applies, no entry of the catalog [get_all_commands] returns has
    permission "admin", whatever the host state and the handlers. *)
Theorem no_admin_entry_unless_show_all host config catalog g es e :
  truthy (getattr (show_all_cmds config) (PBool false)) = false →
  returned (get_all_commands host config) = Some catalog →
  (g, es) ∈ catalog →
  e ∈ es →
  permission e ≠ str "admin".
Proof.
  intros Hflag Hret Hg He.
  destruct (catalog_entry_candidate _ _ _ _ _ _ Hret Hg He) as (stars & _ & Hcand).
  apply elem_of_candidates in Hcand as (star & _ & _ & Hstar).
  apply elem_of_star_candidates in Hstar as (_ & _ & item & _ & Hentry).
  apply handler_entry_Some in Hentry as (h & n & _ & _ & _ & _ & Hshow & ->).
  simpl. unfold _should_include_command in Hshow. rewrite Hflag in Hshow.
  by apply bool_decide_eq_true in Hshow.
Qed.

Lemma no_admin_entry_unless_show_all_witness :
  returned (get_all_commands weather_host default_config)
    = Some [(str "weather", [today_entry])]
  ∧ permission today_entry ≠ str "admin".
Proof.
  split; [reflexivity|].
  apply (no_admin_entry_unless_show_all weather_host default_config
           [(str "weather", [today_entry])] (str "weather") [today_entry] today_entry).
  - reflexivity.
  - reflexivity.
  - apply list_elem_of_here.
  - apply list_elem_of_here.
Defined.

(** ** Excluded plugins *)

Lemma excluded_no_candidates config display_name_map registry star :
  negb (excluded star) = false →
  star_candidates config display_name_map registry star = [].
Proof.
  intros Hexcl. unfold star_candidates, eligible. by rewrite Hexcl.
Qed.

Lemma returned_catalog_of config registry stars :
  returned (get_all_commands
              {| get_all_stars := Return stars; star_handlers_registry := registry |}
              config)
  = Some (foldl catalog_add [] (candidates config registry stars)).
Proof. by apply returned_catalog. Qed.

(** C2: a plugin whose internal name is "astrbot", "astrbot_plugin_help" or
    "astrbot-reminder" contributes nothing to the catalog, whatever its
    handlers and the configuration: the loop body leaves both dictionaries as
    they were, and the returned catalog is the one of a host from which these
    plugins are removed. *)
Theorem excluded_plugins_contribute_nothing config registry stars :
  returned (get_all_commands
              {| get_all_stars := Return stars; star_handlers_registry := registry |}
              config)
  = returned (get_all_commands
                {| get_all_stars := Return (filter (λ star, negb (excluded star) = true) stars);
                   star_handlers_registry := registry |}
                config)
  ∧ ∀ display_name_map st star,
      internal_name star = str "astrbot"
      ∨ internal_name star = str "astrbot_plugin_help"
      ∨ internal_name star = str "astrbot-reminder" →
      process_star config display_name_map registry st star = ([], Return st).
Proof.
  split.
  - rewrite !returned_catalog_of.
    rewrite (candidates_filter (λ star, negb (excluded star))); [done|].
    intros star display_name_map. apply excluded_no_candidates.
  - intros display_name_map st star Hname. unfold process_star.
    fold (internal_name star).
    destruct Hname as [->| [->| ->]]; reflexivity.
Qed.

Lemma excluded_plugins_contribute_nothing_witness :
  process_star show_all_config ∅ [Handler op_handler]
    {| plugin_commands := []; plugin_command_keys := ∅ |} core_star
  = ([], Return {| plugin_commands := []; plugin_command_keys := ∅ |}).
Proof.
  apply (excluded_plugins_contribute_nothing show_all_config [Handler op_handler] [core_star]).
  left. reflexivity.
Defined.

(** ** Listing of qualifying handlers *)

(** The handlers of an activated, eligible plugin that expose a non-empty
    command name at a shown permission level are listed under the plugin's
    display name. *)
Lemma qualifying_handler_listed host config stars star h n :
  get_all_stars host = Return stars →
  star ∈ stars →
  activated star = true →
  eligible config star = true →
  Handler h ∈ star_handlers_registry host →
  Some (handler_module_path h) = module_path star →
  find_command_name (event_filters h) = Some n →
  n ≠ [] →
  _should_include_command config (_get_permission_level (event_filters h)) = true →
  ∃ catalog es,
    returned (get_all_commands host config) = Some catalog
    ∧ (plugin_displayname_of (spec_display_name_map (plugin_display_names config)) star, es)
        ∈ catalog
    ∧ {| command := n;
         desc_text := strip (default [] (desc h));
         permission := _get_permission_level (event_filters h) |} ∈ es.
Proof.
  intros Hstars Hstar Hact Helig Hh Hmp Hn Hnn Hshow.
  apply (candidate_listed _ _ _ _ _ Hstars).
  apply elem_of_candidates. exists star. split; [done|]. split; [done|].
  apply elem_of_star_candidates. split; [done|]. split; [done|].
  exists (Handler h). split; [done|].
  apply handler_entry_Some. exists h, n. rewrite <-Hmp. by repeat split.
Qed.

(** C3, as stated, fails: the admin command of the core plugin is not listed
    although [show_all_cmds] is true. *)
Lemma admin_command_of_core_plugin_not_listed :
  ¬ admin_commands_all_listed core_host show_all_config.
Proof.
  intros Hclaim.
  destruct (Hclaim eq_refl op_handler (str "op")) as (catalog & g & es & e & Hret & Hg & _).
  - apply list_elem_of_here.
  - reflexivity.
  - discriminate.
  - reflexivity.
  - vm_compute in Hret. injection Hret as <-. by apply elem_of_nil in Hg.
Qed.

(** C3, amended: with [show_all_cmds] true, every handler of the registry
    that belongs, by its module path, to an activated plugin that is neither
    excluded nor the hidden builtin-commands plugin and has a non-empty name,
    a non-empty module path and a [Star] instance, and whose first command or
    group filter has a non-empty name, is listed with permission "admin" in
    the group of the plugin's display name when it is classified "admin". *)
Theorem admin_commands_of_scanned_plugins_listed host config stars star h n :
  truthy (getattr (show_all_cmds config) (PBool false)) = true →
  get_all_stars host = Return stars →
  star ∈ stars →
  activated star = true →
  excluded star = false →
  hidden_builtin config star = false →
  internal_name star ≠ [] →
  star_cls star = Some StarInstance →
  Handler h ∈ star_handlers_registry host →
  handler_module_path h ≠ [] →
  module_path star = Some (handler_module_path h) →
  find_command_name (event_filters h) = Some n →
  n ≠ [] →
  _get_permission_level (event_filters h) = str "admin" →
  ∃ catalog es,
    returned (get_all_commands host config) = Some catalog
    ∧ (plugin_displayname_of (spec_display_name_map (plugin_display_names config)) star, es)
        ∈ catalog
    ∧ {| command := n;
         desc_text := strip (default [] (desc h));
         permission := str "admin" |} ∈ es.
Proof.
  intros Hflag Hstars Hstar Hact Hexcl Hbuiltin Hname Hcls Hh Hpath Hmp Hn Hnn Hperm.
  rewrite <-Hperm.
  apply (qualifying_handler_listed host config stars star h n); try done.
  - unfold eligible, valid. rewrite Hexcl, Hbuiltin, Hmp, Hcls. simpl.
    destruct (internal_name star); [done|]. by destruct (handler_module_path h).
  - unfold _should_include_command. by rewrite Hflag.
Qed.

Lemma admin_commands_of_scanned_plugins_listed_witness :
  ∃ catalog es,
    returned (get_all_commands weather_host show_all_config) = Some catalog
    ∧ (str "weather", es) ∈ catalog
    ∧ ban_entry ∈ es.
Proof.
  apply (admin_commands_of_scanned_plugins_listed weather_host show_all_config
           [weather_star] weather_star ban_handler (str "ban")).
  - reflexivity.
  - reflexivity.
  - apply list_elem_of_here.
  - reflexivity.
  - reflexivity.
  - reflexivity.
  - discriminate.
  - reflexivity.
  - apply list_elem_of_further, list_elem_of_here.
  - discriminate.
  - reflexivity.
  - reflexivity.
  - discriminate.
  - reflexivity.
Defined.

(** ** Duplicates *)

Lemma filter_absent (e : CommandEntry) l : e ∉ l → filter (λ e', e' = e) l = [].
Proof.
  induction l as [|x l IH]; [done|]. intros [Hne Hl]%not_elem_of_cons.
  rewrite filter_cons_False by congruence. by apply IH.
Qed.

Lemma NoDup_occurs_once (e : CommandEntry) l :
  NoDup l → e ∈ l → length (filter (λ e', e' = e) l) = 1%nat.
Proof.
  induction 1 as [|x l Hx Hl IH]; [by intros ?%elem_of_nil|].
  intros [->|Hin]%elem_of_cons.
  - rewrite filter_cons_True by done. by rewrite filter_absent.
  - rewrite filter_cons_False by by intros ->. by apply IH.
Qed.

(** C6: entries of a group are duplicates exactly when their (command,
    description, permission) triples are equal. The group [g] of the returned
    catalog is the sequence of entries produced for [g] by the qualifying
    handlers in scan order, each kept at its first occurrence only: no triple
    occurs twice, and every produced triple occurs exactly once. *)
Theorem duplicates_dropped_first_wins host config stars catalog g :
  get_all_stars host = Return stars →
  returned (get_all_commands host config) = Some catalog →
  (∀ e1 e2, dedupe_key e1 = dedupe_key e2 ↔ e1 = e2)
  ∧ group g catalog
    = dedup_first (candidates_of g (candidates config (star_handlers_registry host) stars))
  ∧ NoDup (dedupe_key <$> group g catalog)
  ∧ ∀ e, e ∈ candidates_of g (candidates config (star_handlers_registry host) stars) →
         length (filter (λ e', dedupe_key e' = dedupe_key e) (group g catalog)) = 1%nat.
Proof.
  intros Hstars Hret. rewrite (returned_catalog _ _ _ Hstars) in Hret.
  injection Hret as <-. rewrite group_candidates.
  split; [apply dedupe_key_inj|]. split; [done|]. split.
  - apply NoDup_fmap_2; [|apply NoDup_dedup_first].
    intros e1 e2. apply dedupe_key_inj.
  - intros e He.
    rewrite (list_filter_iff _ (λ e', e' = e)) by (intros e'; apply dedupe_key_inj).
    apply NoDup_occurs_once; [apply NoDup_dedup_first|by apply elem_of_dedup_first].
Qed.

Lemma duplicates_dropped_first_wins_witness :
  candidates_of (str "weather")
    (candidates show_all_config weather_registry [weather_star])
    = [today_entry; ban_entry; today_entry]
  ∧ group (str "weather") [(str "weather", [today_entry; ban_entry])]
    = dedup_first [today_entry; ban_entry; today_entry].
Proof.
  split; [reflexivity|].
  apply (duplicates_dropped_first_wins weather_host show_all_config [weather_star]
           [(str "weather", [today_entry; ban_entry])] (str "weather")).
  - reflexivity.
  - reflexivity.
Defined.

(** ** Display names *)

Lemma str_or_nil_r s : str_or s [] = s.
Proof. by destruct s. Qed.

(** C7: the display name of a plugin is the first non-empty of its trimmed
    native display name, the entry of the override mapping for its internal
    name, and the internal name; it is the group under which the plugin's
    qualifying handlers are listed. With the configured list
    ["foo:Foo Tools"], a plugin named "foo" without a native display name is
    shown as "Foo Tools". *)
Theorem display_name_priority config star :
  (∀ display_name_map,
     plugin_displayname_of display_name_map star
     = first_nonempty [strip (default [] (display_name star));
                       default [] (display_name_map !! internal_name star);
                       internal_name star])
  ∧ (∀ host stars h n,
       get_all_stars host = Return stars →
       star ∈ stars →
       activated star = true →
       eligible config star = true →
       Handler h ∈ star_handlers_registry host →
       Some (handler_module_path h) = module_path star →
       find_command_name (event_filters h) = Some n →
       n ≠ [] →
       _should_include_command config (_get_permission_level (event_filters h)) = true →
       ∃ mapping catalog es,
         returned (_get_plugin_display_name_map config) = Some mapping
         ∧ returned (get_all_commands host config) = Some catalog
         ∧ (first_nonempty [strip (default [] (display_name star));
                            default [] (mapping !! internal_name star);
                            internal_name star], es) ∈ catalog
         ∧ {| command := n;
              desc_text := strip (default [] (desc h));
              permission := _get_permission_level (event_filters h) |} ∈ es)
  ∧ (plugin_display_names config = Some (PList [PStr (str "foo:Foo Tools")]) →
     name star = Some (str "foo") →
     display_name star = None →
     ∃ mapping,
       returned (_get_plugin_display_name_map config) = Some mapping
       ∧ plugin_displayname_of mapping star = str "Foo Tools").
Proof.
  assert (∀ display_name_map,
            plugin_displayname_of display_name_map star
            = first_nonempty [strip (default [] (display_name star));
                              default [] (display_name_map !! internal_name star);
                              internal_name star]) as Hname.
  { intros display_name_map. unfold plugin_displayname_of.
    fold (internal_name star). rewrite str_or_nil_r. reflexivity. }
  split; [exact Hname|]. split.
  - intros host stars h n Hstars Hstar Hact Helig Hh Hmp Hn Hnn Hshow.
    destruct (qualifying_handler_listed host config stars star h n)
      as (catalog & es & Hret & Hg & He); try done.
    exists (spec_display_name_map (plugin_display_names config)), catalog, es.
    rewrite display_name_map_eq, <-Hname. by repeat split.
  - intros Hconfig Hfoo Hnative.
    exists (spec_display_name_map (plugin_display_names config)).
    rewrite display_name_map_eq. split; [done|].
    unfold plugin_displayname_of, getattr. rewrite Hconfig, Hfoo, Hnative.
    reflexivity.
Qed.

Lemma display_name_priority_witness :
  returned (get_all_commands foo_host foo_config)
    = Some [(str "Foo Tools", [foo_entry])]
  ∧ ∃ mapping,
      returned (_get_plugin_display_name_map foo_config) = Some mapping
      ∧ plugin_displayname_of mapping foo_star = str "Foo Tools".
Proof.
  split; [reflexivity|].
  apply (display_name_priority foo_config foo_star); reflexivity.
Defined.

(** ** Failures *)

(** C8: [get_all_commands] never raises. When fetching the plugin
    descriptors fails it logs the error and returns an empty mapping; when no
    plugin is activated it logs a warning and returns an empty mapping; in
    every other case it returns the catalog built from the candidates of the
    activated plugins. *)
Theorem get_all_commands_never_raises host config :
  (∃ log catalog, get_all_commands host config = (log, Return catalog))
  ∧ (∀ e, get_all_stars host = Raise e →
          get_all_commands host config = ([LogErrorFetch e], Return []))
  ∧ (∀ stars, get_all_stars host = Return stars →
              filter (λ star, activated star = true) stars = [] →
              get_all_commands host config
              = ([LogDebugActivated 0; LogWarningNoPlugins], Return []))
  ∧ (∀ stars, get_all_stars host = Return stars →
              returned (get_all_commands host config)
              = Some (foldl catalog_add []
                        (candidates config (star_handlers_registry host) stars))).
Proof.
  split; [|split; [|split]].
  - destruct (get_all_commands_spec host config) as [log Hrun]. eauto.
  - intros e He. unfold get_all_commands. by rewrite He.
  - intros stars Hstars Hnone. unfold get_all_commands. rewrite Hstars. simpl.
    by rewrite Hnone.
  - apply returned_catalog.
Qed.

Lemma get_all_commands_never_raises_witness :
  get_all_commands failing_host default_config
    = ([LogErrorFetch (HostError (str "registry unavailable"))], Return [])
  ∧ get_all_commands
      {| get_all_stars := Return []; star_handlers_registry := weather_registry |}
      default_config
    = ([LogDebugActivated 0; LogWarningNoPlugins], Return []).
Proof.
  split.
  - apply (get_all_commands_never_raises failing_host default_config). reflexivity.
  - apply (get_all_commands_never_raises
             {| get_all_stars := Return []; star_handlers_registry := weather_registry |}
             default_config) with (stars := []); reflexivity.
Defined.

(** ** The builtin-commands plugin *)

Lemma hidden_builtin_no_candidates config display_name_map registry star :
  negb (hidden_builtin config star) = false →
  star_candidates config display_name_map registry star = [].
Proof.
  intros Hhidden. unfold star_candidates, eligible. rewrite Hhidden.
  by rewrite andb_false_r.
Qed.

(** The plugin named "builtin_commands" is skipped whenever the value looked
    up for [show_builtin_cmds] is falsy, whatever its handlers: the loop body
    leaves both dictionaries as they were and the returned catalog is the one
    of a host without that plugin. *)
Lemma builtin_commands_hidden_by_falsy_flag config registry stars :
  truthy (getattr (show_builtin_cmds config) (PBool true)) = false →
  returned (get_all_commands
              {| get_all_stars := Return stars; star_handlers_registry := registry |}
              config)
  = returned (get_all_commands
                {| get_all_stars :=
                     Return (filter (λ star, internal_name star ≠ str "builtin_commands")
                               stars);
                   star_handlers_registry := registry |}
                config)
  ∧ ∀ display_name_map st star,
      internal_name star = str "builtin_commands" →
      process_star config display_name_map registry st star = ([], Return st).
Proof.
  intros Hflag. split.
  - rewrite !returned_catalog_of.
    rewrite <-(candidates_filter (λ star, negb (hidden_builtin config star))
                 config registry stars)
      by (intros star display_name_map; apply hidden_builtin_no_candidates).
    do 3 f_equal. apply list_filter_iff. intros star.
    unfold hidden_builtin. rewrite Hflag, andb_true_r.
    rewrite negb_true_iff, bool_decide_eq_false. done.
  - intros display_name_map st star Hname. unfold process_star.
    fold (internal_name star). rewrite Hname, Hflag. reflexivity.
Qed.

(** C9, the code at the failing input: the configuration object holds no key
    [show_builtin_cmds] and answers the lookup with the value [None]. The
    default [True] of [getattr] is then not used, [not None] holds, and the
    plugin named "builtin_commands" is skipped although its handler
    qualifies: the loop body changes nothing and the catalog is empty, where
    with the option set to [True] the handler is listed. The comment of line
    121 says that the plugin is shown by default. *)
Theorem builtin_commands_hidden_when_key_missing :
  getattr (show_builtin_cmds missing_key_config) (PBool true) = PNone
  ∧ process_star missing_key_config ∅ [Handler help_handler]
      {| plugin_commands := []; plugin_command_keys := ∅ |} builtin_star
    = ([], Return {| plugin_commands := []; plugin_command_keys := ∅ |})
  ∧ get_all_commands builtin_host missing_key_config
    = ([LogDebugActivated 1], Return [])
  ∧ get_all_commands builtin_host (with_builtin_shown missing_key_config)
    = ([LogDebugActivated 1], Return [(str "builtin_commands", [help_entry])]).
Proof.
  split; [reflexivity|]. split; [|split; reflexivity].
  by apply (builtin_commands_hidden_by_falsy_flag missing_key_config
              [Handler help_handler] [builtin_star]).
Qed.

(** ** The command name of a handler *)

(** The scan stops at the first command or group filter. *)
Lemma find_command_name_first before f after :
  Forall (λ f, is_command_filter f = false) before →
  is_command_filter f = true →
  find_command_name (before ++ f :: after) = filter_name f.
Proof.
  intros Hbefore Hf. induction Hbefore as [|f' l Hf' _ IH]; simpl.
  - by destruct f.
  - by destruct f'.
Qed.

Lemma handler_entry_unnamed config mp h :
  find_command_name (event_filters h) = Some [] →
  handler_entry config mp (Handler h) = None.
Proof. intros Hn. simpl. rewrite Hn. by case_bool_decide. Qed.

Lemma star_candidates_drop_item config display_name_map registry1 item registry2 star :
  (∀ mp, handler_entry config mp item = None) →
  star_candidates config display_name_map (registry1 ++ item :: registry2) star
  = star_candidates config display_name_map (registry1 ++ registry2) star.
Proof.
  intros Hnone. unfold star_candidates. destruct (eligible config star); [|done].
  rewrite !omap_app. simpl. by rewrite Hnone.
Qed.

Lemma candidates_drop_item config registry1 item registry2 stars :
  (∀ mp, handler_entry config mp item = None) →
  candidates config (registry1 ++ item :: registry2) stars
  = candidates config (registry1 ++ registry2) stars.
Proof.
  intros Hnone. unfold candidates.
  induction (filter (λ star, activated star = true) stars) as [|star l IH]; [done|].
  csimpl. by rewrite IH, star_candidates_drop_item.
Qed.

(** C10: a handler whose first command or group filter carries an empty name
    produces no entry, whatever filters follow it: the scan for the name stops
    at that filter, the loop body leaves both dictionaries as they were, and
    the returned catalog is the one of a registry without the handler. An
    entry is added only for a handler whose extracted name is non-empty. *)
Theorem empty_first_command_name_no_entry config h before f after :
  event_filters h = before ++ f :: after →
  Forall (λ f, is_command_filter f = false) before →
  f = CommandFilter [] ∨ f = CommandGroupFilter [] →
  (∀ g mp st, process_handler config g mp st (Handler h) = st)
  ∧ (∀ stars registry1 registry2,
       returned (get_all_commands
                   {| get_all_stars := Return stars;
                      star_handlers_registry := registry1 ++ Handler h :: registry2 |}
                   config)
       = returned (get_all_commands
                     {| get_all_stars := Return stars;
                        star_handlers_registry := registry1 ++ registry2 |}
                     config))
  ∧ (∀ g mp st h',
       plugin_commands (process_handler config g mp st (Handler h')) ≠ plugin_commands st →
       ∃ n, find_command_name (event_filters h') = Some n ∧ n ≠ []).
Proof.
  intros Hfilters Hbefore Hf.
  assert (find_command_name (event_filters h) = Some []) as Hn.
  { rewrite Hfilters, find_command_name_first; [|done|]; by destruct Hf as [->| ->]. }
  split; [|split].
  - intros g mp st. simpl. rewrite Hn. by case_bool_decide.
  - intros stars registry1 registry2. rewrite !returned_catalog_of.
    rewrite candidates_drop_item; [done|].
    intros mp. by apply handler_entry_unnamed.
  - intros g mp st h' Hchanged. simpl in Hchanged.
    case_bool_decide; [done|].
    destruct (find_command_name (event_filters h')) as [n|]; [|done].
    exists n. split; [done|]. by intros ->.
Qed.

Lemma empty_first_command_name_no_entry_witness :
  returned (get_all_commands
              {| get_all_stars := Return [weather_star];
                 star_handlers_registry :=
                   [Handler today_handler] ++ Handler unnamed_handler :: [] |}
              default_config)
  = returned (get_all_commands
                {| get_all_stars := Return [weather_star];
                   star_handlers_registry := [Handler today_handler] ++ [] |}
                default_config).
Proof.
  apply (empty_first_command_name_no_entry default_config unnamed_handler
           [OtherFilter] (CommandFilter []) [CommandGroupFilter (str "later")]).
  - reflexivity.
  - repeat constructor.
  - left. reflexivity.
Defined.

(** * Further properties *)

(** ** Shape of the catalog *)

Section first_occurrences.
Context {A : Type} `{EqDecision A}.
Implicit Types l : list A.

Lemma elem_of_first_occurrences x l : x ∈ first_occurrences l ↔ x ∈ l.
Proof.
  induction l as [|y l IH]; simpl; [done|].
  rewrite !elem_of_cons, list_elem_of_filter, IH.
  destruct (decide (x = y)); tauto.
Qed.

Lemma first_occurrences_snoc l x :
  first_occurrences (l ++ [x])
  = if bool_decide (x ∈ l) then first_occurrences l else first_occurrences l ++ [x].
Proof.
  induction l as [|y l IH]; simpl; [done|]. rewrite IH.
  destruct (decide (x = y)) as [->|Hne].
  - rewrite (bool_decide_eq_true_2 (y ∈ y :: l)) by by left.
    case_bool_decide; [done|].
    rewrite filter_app, filter_cons_False, filter_nil, app_nil_r; [done|]. by intros [].
  - destruct (decide (x ∈ l)) as [Hin|Hnin].
    + rewrite (bool_decide_eq_true_2 (x ∈ l)), (bool_decide_eq_true_2 (x ∈ y :: l));
        [done|by right|done].
    + rewrite (bool_decide_eq_false_2 (x ∈ l)), (bool_decide_eq_false_2 (x ∈ y :: l));
        [|by intros [?|?]%elem_of_cons|done].
      by rewrite filter_app, filter_cons_True, filter_nil.
Qed.

Lemma NoDup_first_occurrences l : NoDup (first_occurrences l).
Proof.
  induction l as [|x l IH]; simpl; [constructor|].
  apply NoDup_cons. split; [|by apply NoDup_filter].
  rewrite list_elem_of_filter. by intros [? _].
Qed.

Lemma first_occurrences_filter (P : A → Prop) `{∀ x, Decision (P x)} l :
  first_occurrences (filter P l) = filter P (first_occurrences l).
Proof.
  induction l as [|x l IH]; [done|]. simpl.
  destruct (decide (P x)) as [HP|HP].
  - rewrite !filter_cons_True by done. simpl. rewrite IH. f_equal.
    rewrite !list_filter_filter. apply list_filter_iff. intros y. tauto.
  - rewrite !filter_cons_False by done. rewrite IH.
    symmetry. apply list_filter_filter_l. by intros y Hy ->.
Qed.
End first_occurrences.

Lemma group_elem_key g e (d : Catalog) : e ∈ group g d → g ∈ d.*1.
Proof.
  unfold group. induction d as [|[k v] d IH]; csimpl; [by intros ?%elem_of_nil|].
  case_bool_decide as Hk; [subst; by left|]. intros He. right. by apply IH.
Qed.

Lemma catalog_add_keys (d : Catalog) g e :
  (catalog_add d (g, e)).*1 = if bool_decide (g ∈ d.*1) then d.*1 else d.*1 ++ [g].
Proof.
  unfold catalog_add. simpl. case_bool_decide as He.
  - by rewrite bool_decide_eq_true_2 by by eapply group_elem_key.
  - apply dict_append_keys.
Qed.

(** The groups come in the order in which their first candidate is met. *)
Lemma catalog_keys cands :
  (foldl catalog_add [] cands).*1 = first_occurrences cands.*1.
Proof.
  induction cands as [|[g e] cands IH] using rev_ind; [done|].
  rewrite foldl_app, fmap_app. simpl. rewrite catalog_add_keys, IH.
  rewrite first_occurrences_snoc.
  by rewrite (bool_decide_ext _ _ (elem_of_first_occurrences g cands.*1)).
Qed.

Lemma dict_append_nonempty g e (d : Catalog) :
  Forall (λ ge, ge.2 ≠ []) d → Forall (λ ge, ge.2 ≠ []) (dict_append g e d).
Proof.
  induction 1 as [|[k v] d Hv Hd IH]; simpl.
  - by constructor.
  - case_bool_decide.
    + constructor; [|done]. simpl. by destruct v.
    + by constructor.
Qed.

Lemma catalog_groups_nonempty cands :
  Forall (λ ge, ge.2 ≠ []) (foldl catalog_add [] cands).
Proof.
  induction cands as [|[g e] cands IH] using rev_ind; [constructor|].
  rewrite foldl_app. simpl. unfold catalog_add at 1. simpl.
  case_bool_decide; [done|]. by apply dict_append_nonempty.
Qed.

(** ** Trimmed strings *)

Lemma lstrip_idemp s : lstrip (lstrip s) = lstrip s.
Proof.
  induction s as [|c s IH]; simpl; [done|].
  destruct (is_space c) eqn:Hc; [done|]. simpl. by rewrite Hc.
Qed.

Lemma lstrip_head s c t : lstrip s = c :: t → is_space c = false.
Proof.
  induction s as [|c' s IH]; simpl; [done|].
  destruct (is_space c') eqn:Hc; [done|]. by intros [= <- _].
Qed.

Lemma lstrip_snoc s c : is_space c = false → lstrip (s ++ [c]) = lstrip s ++ [c].
Proof.
  intros Hc. induction s as [|c' s IH]; simpl; [by rewrite Hc|].
  by destruct (is_space c').
Qed.

Lemma rstrip_cons c s : is_space c = false → rstrip (c :: s) = c :: rstrip s.
Proof.
  intros Hc. unfold rstrip.
  by rewrite reverse_cons, lstrip_snoc, reverse_app by done.
Qed.

Lemma rstrip_idemp s : rstrip (rstrip s) = rstrip s.
Proof. unfold rstrip. by rewrite reverse_involutive, lstrip_idemp. Qed.

Lemma trimmed_strip s : trimmed (strip s).
Proof.
  unfold trimmed, strip. split; [|apply rstrip_idemp].
  destruct (lstrip s) as [|c t] eqn:Hs; [done|].
  pose proof (lstrip_head _ _ _ Hs) as Hc.
  rewrite rstrip_cons by done. simpl. by rewrite Hc.
Qed.

Lemma elem_of_strip c s : c ∈ strip s → c ∈ s.
Proof.
  intros Hin. destruct (strip_split s) as (ws1 & ws2 & _ & _ & Hs).
  rewrite Hs, !elem_of_app. auto.
Qed.

(** ** Well-formed entries *)

Lemma permission_level_range event_filters :
  is_permission_level (_get_permission_level event_filters).
Proof.
  unfold is_permission_level.
  induction event_filters as [|f l IH]; simpl; [auto|].
  destruct f as [| |[]|]; auto.
Qed.

Lemma plugin_displayname_nonempty display_name_map star :
  internal_name star ≠ [] → plugin_displayname_of display_name_map star ≠ [].
Proof.
  intros Hname. unfold plugin_displayname_of. fold (internal_name star).
  unfold str_or at 1. destruct (strip _) as [|c t]; simpl; [|done].
  unfold str_or. destruct (default [] _); simpl; done.
Qed.

Lemma eligible_name_nonempty config star :
  eligible config star = true → internal_name star ≠ [].
Proof.
  unfold eligible, valid. intros H Hname. rewrite Hname in H. simpl in H.
  by rewrite !andb_false_r in H.
Qed.

Lemma candidate_wellformed config registry stars g e :
  (g, e) ∈ candidates config registry stars →
  g ≠ [] ∧ command e ≠ [] ∧ trimmed (desc_text e) ∧ is_permission_level (permission e).
Proof.
  intros (star & _ & _ & Hstar)%elem_of_candidates.
  apply elem_of_star_candidates in Hstar as (Helig & -> & item & _ & Hentry).
  apply handler_entry_Some in Hentry as (h & n & _ & _ & _ & Hn & _ & ->). simpl.
  split; [by eapply plugin_displayname_nonempty, eligible_name_nonempty|].
  split; [done|]. split; [apply trimmed_strip|apply permission_level_range].
Qed.

(** X1: no display name heads two groups of the returned catalog, and no
    group is empty. *)
Theorem catalog_groups_distinct_nonempty host config catalog :
  returned (get_all_commands host config) = Some catalog →
  NoDup catalog.*1 ∧ ∀ g es, (g, es) ∈ catalog → es ≠ [].
Proof.
  destruct (get_all_commands_spec host config) as [log ->]. simpl. intros [= <-].
  destruct (get_all_stars host) as [stars|err].
  - split; [apply catalog_keys_NoDup|].
    intros g es Hin.
    pose proof (catalog_groups_nonempty
                  (candidates config (star_handlers_registry host) stars)) as Hne.
    rewrite Forall_forall in Hne. apply (Hne _ Hin).
  - split; [constructor|]. by intros g es ?%elem_of_nil.
Qed.

Lemma catalog_groups_distinct_nonempty_witness :
  NoDup [(str "weather", [today_entry; week_entry])].*1
  ∧ ∀ g es, (g, es) ∈ [(str "weather", [today_entry; week_entry])] → es ≠ [].
Proof.
  apply (catalog_groups_distinct_nonempty merged_host default_config). reflexivity.
Defined.

(** X3: every entry of the returned catalog stands under a non-empty display
    name, has a non-empty command, a description without surrounding
    whitespace, and one of the permissions "admin", "member", "everyone". *)
Theorem catalog_entries_wellformed host config catalog g es e :
  returned (get_all_commands host config) = Some catalog →
  (g, es) ∈ catalog →
  e ∈ es →
  g ≠ [] ∧ command e ≠ [] ∧ trimmed (desc_text e) ∧ is_permission_level (permission e).
Proof.
  intros Hret Hg He.
  destruct (catalog_entry_candidate _ _ _ _ _ _ Hret Hg He) as (stars & _ & Hcand).
  by eapply candidate_wellformed.
Qed.

Lemma catalog_entries_wellformed_witness :
  str "weather" ≠ [] ∧ command today_entry ≠ [] ∧ trimmed (desc_text today_entry)
  ∧ is_permission_level (permission today_entry).
Proof.
  apply (catalog_entries_wellformed weather_host default_config
           [(str "weather", [today_entry])] (str "weather") [today_entry] today_entry).
  - reflexivity.
  - apply list_elem_of_here.
  - apply list_elem_of_here.
Defined.

(** X4: an entry stands in a group of the returned catalog exactly when some
    activated, scanned plugin with that display name has, in the registry, a
    handler of its own module path whose first command or group filter
    carries the entry's non-empty command, whose trimmed description and
    permission level are the entry's, and whose permission level is shown. *)
Theorem catalog_entry_iff host config stars catalog g e :
  get_all_stars host = Return stars →
  returned (get_all_commands host config) = Some catalog →
  (∃ es, (g, es) ∈ catalog ∧ e ∈ es) ↔
  ∃ star h,
    star ∈ stars
    ∧ activated star = true
    ∧ eligible config star = true
    ∧ g = plugin_displayname_of (spec_display_name_map (plugin_display_names config)) star
    ∧ Handler h ∈ star_handlers_registry host
    ∧ module_path star = Some (handler_module_path h)
    ∧ find_command_name (event_filters h) = Some (command e)
    ∧ command e ≠ []
    ∧ desc_text e = strip (default [] (desc h))
    ∧ permission e = _get_permission_level (event_filters h)
    ∧ _should_include_command config (permission e) = true.
Proof.
  intros Hstars Hret. split.
  - intros (es & Hg & He).
    destruct (catalog_entry_candidate _ _ _ _ _ _ Hret Hg He) as (stars' & Hstars' & Hcand).
    rewrite Hstars in Hstars'. injection Hstars' as <-.
    apply elem_of_candidates in Hcand as (star & Hstar & Hact & Hcand).
    apply elem_of_star_candidates in Hcand as (Helig & -> & item & Hitem & Hentry).
    apply handler_entry_Some in Hentry as (h & n & -> & Hmp & Hn & Hnn & Hshow & ->).
    exists star, h. simpl. repeat split; try done.
    unfold eligible, valid in Helig.
    destruct (module_path star) as [p|]; simpl in *; [by subst|].
    by rewrite andb_false_r, !andb_false_l, ?andb_false_r in Helig.
  - intros (star & h & Hstar & Hact & Helig & -> & Hh & Hmp & Hn & Hnn & Hdesc & Hperm & Hshow).
    destruct (candidate_listed host config stars
                (plugin_displayname_of
                   (spec_display_name_map (plugin_display_names config)) star) e Hstars)
      as (catalog' & es & Hret' & Hg & He).
    + apply elem_of_candidates. exists star. split; [done|]. split; [done|].
      apply elem_of_star_candidates. split; [done|]. split; [done|].
      exists (Handler h). split; [done|].
      apply handler_entry_Some. exists h, (command e). rewrite Hmp. simpl.
      rewrite <-Hperm, <-Hdesc. repeat split; try done. by destruct e.
    + rewrite Hret in Hret'. injection Hret' as <-. by exists es.
Qed.

Lemma catalog_entry_iff_witness :
  (∃ es, (str "weather", es) ∈ [(str "weather", [today_entry; week_entry])]
         ∧ week_entry ∈ es) ↔
  ∃ star h,
    star ∈ [weather_star; broken_star; forecast_star]
    ∧ activated star = true
    ∧ eligible default_config star = true
    ∧ str "weather"
      = plugin_displayname_of
          (spec_display_name_map (plugin_display_names default_config)) star
    ∧ Handler h ∈ star_handlers_registry merged_host
    ∧ module_path star = Some (handler_module_path h)
    ∧ find_command_name (event_filters h) = Some (command week_entry)
    ∧ command week_entry ≠ []
    ∧ desc_text week_entry = strip (default [] (desc h))
    ∧ permission week_entry = _get_permission_level (event_filters h)
    ∧ _should_include_command default_config (permission week_entry) = true.
Proof.
  apply (catalog_entry_iff merged_host default_config
           [weather_star; broken_star; forecast_star]
           [(str "weather", [today_entry; week_entry])] (str "weather") week_entry);
    reflexivity.
Defined.

(** ** Order of the groups *)

Lemma first_occurrences_block {A} `{EqDecision A} (d : A) (block rest : list A) :
  Forall (λ x, x = d) block →
  block ≠ [] →
  first_occurrences (block ++ rest) = d :: filter (λ y, y ≠ d) (first_occurrences rest).
Proof.
  intros Hblock Hne. destruct Hblock as [|x block -> Hblock]; [done|].
  simpl. f_equal. rewrite <-!first_occurrences_filter. f_equal.
  rewrite filter_app. replace (filter (λ y, y ≠ d) block) with (@nil A); [done|].
  symmetry. clear Hne. induction Hblock as [|x block -> _ IH]; [done|].
  by rewrite filter_cons_False by (by intros []).
Qed.

Lemma first_occurrences_cons {A} `{EqDecision A} (x : A) l :
  first_occurrences (x :: l) = x :: filter (λ y, y ≠ x) (first_occurrences l).
Proof. done. Qed.

Lemma candidate_names config registry stars :
  first_occurrences (candidates config registry stars).*1
  = first_occurrences
      (plugin_displayname_of (spec_display_name_map (plugin_display_names config))
         <$> filter (λ star, has_listed_command config registry star = true) stars).
Proof.
  unfold candidates. induction stars as [|star stars IH]; [done|].
  destruct (activated star) eqn:Hact.
  2:{ rewrite (filter_cons_False (λ star, activated star = true)) by congruence.
      rewrite filter_cons_False; [exact IH|]. unfold has_listed_command.
      rewrite Hact. simpl. congruence. }
  rewrite (filter_cons_True (λ star, activated star = true)) by done.
  rewrite bind_cons, fmap_app. unfold star_candidates at 1.
  destruct (eligible config star) eqn:Helig.
  2:{ rewrite filter_cons_False; [exact IH|]. unfold has_listed_command.
      rewrite Hact, Helig. simpl. congruence. }
  fold (plugin_entries config registry star).
  destruct (decide (plugin_entries config registry star = [])) as [Hnone|Hsome].
  - rewrite Hnone. rewrite filter_cons_False; [exact IH|].
    unfold has_listed_command. rewrite Hact, Helig, bool_decide_eq_false_2; [done|].
    by intros [].
  - rewrite filter_cons_True.
    2:{ unfold has_listed_command. by rewrite Hact, Helig, bool_decide_eq_true_2. }
    rewrite fmap_cons, first_occurrences_cons, <-IH.
    apply first_occurrences_block.
    + rewrite <-list_fmap_compose. by apply Forall_fmap, Forall_true.
    + destruct (plugin_entries config registry star); [done|]. by csimpl.
Qed.

(** X2: the groups of the returned catalog come in the order of the host's
    plugin list: their display names are those of the activated, scanned
    plugins with at least one qualifying handler, each at its first
    occurrence. *)
Theorem catalog_group_order host config stars catalog :
  get_all_stars host = Return stars →
  returned (get_all_commands host config) = Some catalog →
  catalog.*1
  = first_occurrences
      (plugin_displayname_of (spec_display_name_map (plugin_display_names config))
         <$> filter (λ star,
                       has_listed_command config (star_handlers_registry host) star = true)
               stars).
Proof.
  intros Hstars Hret. rewrite (returned_catalog _ _ _ Hstars) in Hret.
  injection Hret as <-. rewrite catalog_keys. apply candidate_names.
Qed.

Lemma catalog_group_order_witness :
  [(str "weather", [today_entry; week_entry])].*1
  = first_occurrences
      (plugin_displayname_of (spec_display_name_map (plugin_display_names default_config))
         <$> filter (λ star,
                       has_listed_command default_config
                         (star_handlers_registry merged_host) star = true)
               [weather_star; broken_star; forecast_star]).
Proof.
  apply (catalog_group_order merged_host default_config
           [weather_star; broken_star; forecast_star]); reflexivity.
Defined.

(** ** The log *)

Lemma process_star_log config display_name_map registry st star :
  ∃ st', process_star config display_name_map registry st star
         = (warnings_of config star, Return st').
Proof.
  unfold process_star, warnings_of, excluded, hidden_builtin, valid, internal_name.
  destruct (_ || _ || _); simpl; [by eexists|].
  destruct (_ && negb _); simpl; [by eexists|].
  destruct (str_truthy _); simpl; [|by eexists].
  destruct (path_truthy _); simpl; [|by eexists].
  destruct (isinstance_Star _); simpl; by eexists.
Qed.

Lemma plugin_loop_log config display_name_map registry stars st :
  ∃ st', for_each (process_star config display_name_map registry) stars st
         = (stars ≫= warnings_of config, Return st').
Proof.
  revert st. induction stars as [|star stars IH]; intros st; csimpl; [by eexists|].
  destruct (process_star_log config display_name_map registry st star) as [st1 ->].
  destruct (IH st1) as [st2 Hrun]. simpl. rewrite Hrun. by eexists.
Qed.

(** A call in full: what it logs and what it returns. *)
Lemma get_all_commands_full host config :
  get_all_commands host config = (log_of host config, Return (catalog_of host config)).
Proof.
  destruct (get_all_commands_spec host config) as [log Hrun].
  assert (log = log_of host config) as ->; [|by rewrite Hrun].
  apply (f_equal fst) in Hrun. simpl in Hrun. rewrite <-Hrun.
  unfold get_all_commands, log_of.
  destruct (get_all_stars host) as [stars|e]; simpl; [|done].
  destruct (filter _ stars) as [|star rest] eqn:Hact; simpl; [done|].
  rewrite display_name_map_eq. simpl.
  destruct (plugin_loop_log config (spec_display_name_map (plugin_display_names config))
              (star_handlers_registry host) (star :: rest)
              {| plugin_commands := []; plugin_command_keys := ∅ |}) as [st Hloop].
  simpl in Hloop. rewrite Hloop. simpl. by rewrite app_nil_r.
Qed.

(** X5: when plugins are activated, a call logs the number of activated
    plugins and then, in plugin order, one warning for each activated plugin
    that is neither excluded nor the hidden builtin-commands plugin and lacks
    a name, a module path or a [Star] instance; nothing else is logged. *)
Theorem get_all_commands_log host config stars :
  get_all_stars host = Return stars →
  filter (λ star, activated star = true) stars ≠ [] →
  (get_all_commands host config).1
  = LogDebugActivated (length (filter (λ star, activated star = true) stars))
    :: (filter (λ star, activated star = true) stars ≫= warnings_of config).
Proof.
  intros Hstars Hsome. rewrite get_all_commands_full. simpl.
  unfold log_of. rewrite Hstars. simpl.
  by destruct (filter _ stars).
Qed.

Lemma get_all_commands_log_witness :
  (get_all_commands merged_host default_config).1
  = [LogDebugActivated 3; LogWarningInvalid (str "broken") None].
Proof.
  apply (get_all_commands_log merged_host default_config
           [weather_star; broken_star; forecast_star]).
  - reflexivity.
  - discriminate.
Defined.

(** ** Registry items that are ignored *)

Lemma candidates_drop_item_scanned config registry1 item registry2 stars :
  (∀ star, star ∈ stars → activated star = true → eligible config star = true →
           handler_entry config (default [] (module_path star)) item = None) →
  candidates config (registry1 ++ item :: registry2) stars
  = candidates config (registry1 ++ registry2) stars.
Proof.
  intros Hnone. unfold candidates.
  induction stars as [|star stars IH]; [done|].
  destruct (activated star) eqn:Hact.
  2:{ rewrite !(filter_cons_False (λ star, activated star = true)) by congruence.
      apply IH. intros star' Hin. apply Hnone. by right. }
  rewrite !(filter_cons_True (λ star, activated star = true)) by done.
  rewrite !bind_cons. f_equal.
  - unfold star_candidates. destruct (eligible config star) eqn:Helig; [|done].
    rewrite !omap_app. simpl. rewrite Hnone; [done|by left|done|done].
  - apply IH. intros star' Hin. apply Hnone. by right.
Qed.

Lemma get_all_commands_same_candidates config stars registry registry' :
  candidates config registry stars = candidates config registry' stars →
  get_all_commands {| get_all_stars := Return stars; star_handlers_registry := registry |}
    config
  = get_all_commands {| get_all_stars := Return stars; star_handlers_registry := registry' |}
      config.
Proof.
  intros Hcands. rewrite !get_all_commands_full.
  unfold log_of, catalog_of. simpl. by rewrite Hcands.
Qed.

Lemma find_command_name_none event_filters :
  Forall (λ f, is_command_filter f = false) event_filters →
  find_command_name event_filters = None.
Proof. induction 1 as [|f l Hf _ IH]; [done|]. by destruct f. Qed.

(** X6: a registry item that is not handler metadata, and a handler without
    any [CommandFilter] or [CommandGroupFilter], are ignored: a call on a
    registry that holds such an item logs and returns what it does without
    the item. *)
Theorem commandless_items_ignored config stars registry1 item registry2 :
  (item = NotHandler
   ∨ ∃ h, item = Handler h
          ∧ Forall (λ f, is_command_filter f = false) (event_filters h)) →
  get_all_commands
    {| get_all_stars := Return stars;
       star_handlers_registry := registry1 ++ item :: registry2 |} config
  = get_all_commands
      {| get_all_stars := Return stars;
         star_handlers_registry := registry1 ++ registry2 |} config.
Proof.
  intros Hitem. apply get_all_commands_same_candidates, candidates_drop_item_scanned.
  intros star _ _ _. destruct Hitem as [->|(h & -> & Hfilters)]; [done|].
  simpl. rewrite find_command_name_none by done. by case_bool_decide.
Qed.

Lemma commandless_items_ignored_witness :
  get_all_commands
    {| get_all_stars := Return [weather_star];
       star_handlers_registry :=
         [Handler today_handler] ++ NotHandler :: [Handler ban_handler] |}
    default_config
  = get_all_commands
      {| get_all_stars := Return [weather_star];
         star_handlers_registry := [Handler today_handler] ++ [Handler ban_handler] |}
      default_config.
Proof.
  apply (commandless_items_ignored default_config [weather_star]
           [Handler today_handler] NotHandler [Handler ban_handler]).
  by left.
Defined.

(** X7: handlers are matched to plugins by equality of module paths only: a
    handler whose module path is the module path of no activated plugin is
    ignored, whatever its filters. *)
Theorem foreign_handler_ignored config stars registry1 h registry2 :
  Forall (λ star, activated star = true →
                  module_path star ≠ Some (handler_module_path h)) stars →
  get_all_commands
    {| get_all_stars := Return stars;
       star_handlers_registry := registry1 ++ Handler h :: registry2 |} config
  = get_all_commands
      {| get_all_stars := Return stars;
         star_handlers_registry := registry1 ++ registry2 |} config.
Proof.
  intros Hforeign. apply get_all_commands_same_candidates, candidates_drop_item_scanned.
  intros star Hin Hact Helig. rewrite Forall_forall in Hforeign.
  specialize (Hforeign star Hin Hact). simpl.
  case_bool_decide as Hmp; [|done]. destruct Hforeign.
  unfold eligible, valid in Helig.
  destruct (module_path star) as [p|]; simpl in *; [by subst|].
  by rewrite andb_false_r, !andb_false_l, ?andb_false_r in Helig.
Qed.

Lemma foreign_handler_ignored_witness :
  get_all_commands
    {| get_all_stars := Return [weather_star];
       star_handlers_registry := [Handler today_handler] ++ Handler week_handler :: [] |}
    default_config
  = get_all_commands
      {| get_all_stars := Return [weather_star];
         star_handlers_registry := [Handler today_handler] ++ [] |}
      default_config.
Proof.
  apply (foreign_handler_ignored default_config [weather_star]
           [Handler today_handler] week_handler []).
  repeat constructor. intros _. discriminate.
Defined.

(** ** Hiding admin commands *)

Lemma permission_level_admin_iff event_filters :
  _get_permission_level event_filters = str "admin" ↔
  ∃ before after,
    event_filters = before ++ PermissionTypeFilter ADMIN :: after
    ∧ Forall (λ f, is_permission_filter f = false) before.
Proof.
  split.
  - induction event_filters as [|f l IH]; simpl; [done|].
    destruct f as [n|n|tier|].
    + intros (before & after & -> & Hbefore)%IH.
      exists (CommandFilter n :: before), after. split; [done|]. by constructor.
    + intros (before & after & -> & Hbefore)%IH.
      exists (CommandGroupFilter n :: before), after. split; [done|]. by constructor.
    + destruct tier; [|done]. intros _. exists [], l. split; [done|]. constructor.
    + intros (before & after & -> & Hbefore)%IH.
      exists (OtherFilter :: before), after. split; [done|]. by constructor.
  - intros (before & after & -> & Hbefore).
    induction Hbefore as [|f l Hf _ IH]; [done|]. by destruct f.
Qed.

(** X8: a handler's permission level is left out of the catalog exactly when
    [show_all_cmds] is false or missing and the first [PermissionTypeFilter]
    of the handler has tier [ADMIN]. *)
Theorem permission_hidden_iff config event_filters :
  _should_include_command config (_get_permission_level event_filters) = false ↔
  truthy (getattr (show_all_cmds config) (PBool false)) = false
  ∧ ∃ before after,
      event_filters = before ++ PermissionTypeFilter ADMIN :: after
      ∧ Forall (λ f, is_permission_filter f = false) before.
Proof.
  rewrite <-permission_level_admin_iff. unfold _should_include_command.
  destruct (truthy _).
  - split; [done|]. by intros [? _].
  - rewrite bool_decide_eq_false. split.
    + intros Hadmin. split; [done|].
      by destruct (decide (_get_permission_level event_filters = str "admin")).
    + intros [_ Hadmin]. by intros ?.
Qed.

Lemma permission_hidden_iff_witness :
  _should_include_command default_config
    (_get_permission_level (event_filters ban_handler)) = false.
Proof.
  apply (permission_hidden_iff default_config (event_filters ban_handler)).
  split; [reflexivity|].
  exists [], [CommandFilter (str "ban")]. split; [reflexivity|constructor].
Defined.

Lemma dedup_first_first_occurrences l : dedup_first l = first_occurrences l.
Proof. induction l as [|e l IH]; [done|]. simpl. by rewrite IH. Qed.

Section show_all.
Variables config_hide config_all : Config.
Hypothesis Hbuiltin : show_builtin_cmds config_hide = show_builtin_cmds config_all.
Hypothesis Hnames : plugin_display_names config_hide = plugin_display_names config_all.
Hypothesis Hhide : truthy (getattr (show_all_cmds config_hide) (PBool false)) = false.
Hypothesis Hall : truthy (getattr (show_all_cmds config_all) (PBool false)) = true.

Lemma handler_entry_hide mp item :
  handler_entry config_hide mp item
  = e ← handler_entry config_all mp item;
    guard (permission e ≠ str "admin");; Some e.
Proof.
  destruct item as [h|]; simpl; [|done].
  case_bool_decide; [|done].
  destruct (find_command_name (event_filters h)) as [n|]; [|done].
  unfold _should_include_command. rewrite Hhide, Hall.
  destruct (str_truthy n); simpl; [|done].
  by case_bool_decide; case_guard.
Qed.

Lemma plugin_entries_hide registry star :
  plugin_entries config_hide registry star
  = filter (λ e, permission e ≠ str "admin") (plugin_entries config_all registry star).
Proof.
  unfold plugin_entries. induction registry as [|item registry IH]; [done|].
  csimpl. rewrite handler_entry_hide, IH.
  destruct (handler_entry config_all _ item) as [e|]; csimpl; [|done].
  case_guard; csimpl.
  - rewrite filter_cons_True; [reflexivity|assumption].
  - rewrite filter_cons_False; [reflexivity|]. intros ?. contradiction.
Qed.

Lemma eligible_hide star : eligible config_hide star = eligible config_all star.
Proof. unfold eligible, hidden_builtin. by rewrite Hbuiltin. Qed.

Lemma candidates_hide registry stars :
  candidates config_hide registry stars
  = filter (λ ge, permission ge.2 ≠ str "admin") (candidates config_all registry stars).
Proof.
  unfold candidates. rewrite Hnames.
  induction (filter (λ star, activated star = true) stars) as [|star l IH]; [done|].
  rewrite !bind_cons, filter_app, IH. f_equal.
  unfold star_candidates. rewrite eligible_hide.
  destruct (eligible config_all star); [|done].
  fold (plugin_entries config_hide registry star).
  fold (plugin_entries config_all registry star).
  rewrite plugin_entries_hide.
  induction (plugin_entries config_all registry star) as [|e es IHes]; [done|].
  csimpl. destruct (decide (permission e ≠ str "admin")).
  - rewrite !filter_cons_True by done. csimpl. by rewrite IHes.
  - by rewrite !filter_cons_False by done.
Qed.

Lemma group_hide host g :
  group g (catalog_of host config_hide)
  = filter (λ e, permission e ≠ str "admin") (group g (catalog_of host config_all)).
Proof.
  unfold catalog_of. destruct (get_all_stars host) as [stars|err]; [|done].
  rewrite !group_candidates, candidates_hide, !dedup_first_first_occurrences.
  rewrite <-first_occurrences_filter. f_equal.
  unfold candidates_of.
  induction (candidates config_all (star_handlers_registry host) stars)
    as [|[g' e] cands IH]; [done|].
  destruct (decide (permission e ≠ str "admin")) as [Hperm|Hperm];
    destruct (decide (g' = g)) as [Hg|Hg].
  - rewrite (filter_cons_True (λ ge, permission ge.2 ≠ str "admin")) by done.
    rewrite !(filter_cons_True (λ ge, ge.1 = g)) by done. csimpl.
    rewrite filter_cons_True by done. by rewrite IH.
  - rewrite (filter_cons_True (λ ge, permission ge.2 ≠ str "admin")) by done.
    by rewrite !(filter_cons_False (λ ge, ge.1 = g)) by done.
  - rewrite (filter_cons_False (λ ge, permission ge.2 ≠ str "admin")) by done.
    rewrite (filter_cons_True (λ ge, ge.1 = g)) by done. csimpl.
    by rewrite filter_cons_False by done.
  - rewrite (filter_cons_False (λ ge, permission ge.2 ≠ str "admin")) by done.
    by rewrite (filter_cons_False (λ ge, ge.1 = g)) by done.
Qed.
End show_all.

(** X9: the option [show_all_cmds] only removes admin entries. For two
    configurations that differ in this option alone, every group of the
    catalog built with the option false is the group built with the option
    true without its entries of permission "admin", in the same order. *)
Theorem show_all_cmds_only_removes_admin host config_hide config_all catalog_hide catalog_all g :
  show_builtin_cmds config_hide = show_builtin_cmds config_all →
  plugin_display_names config_hide = plugin_display_names config_all →
  truthy (getattr (show_all_cmds config_hide) (PBool false)) = false →
  truthy (getattr (show_all_cmds config_all) (PBool false)) = true →
  returned (get_all_commands host config_hide) = Some catalog_hide →
  returned (get_all_commands host config_all) = Some catalog_all →
  group g catalog_hide = filter (λ e, permission e ≠ str "admin") (group g catalog_all).
Proof.
  intros Hbuiltin Hnames Hhide Hall. rewrite !get_all_commands_full. simpl.
  intros [= <-] [= <-]. by apply group_hide.
Qed.

Lemma show_all_cmds_only_removes_admin_witness :
  group (str "weather") [(str "weather", [today_entry])]
  = filter (λ e, permission e ≠ str "admin")
      (group (str "weather") [(str "weather", [today_entry; ban_entry])]).
Proof.
  apply (show_all_cmds_only_removes_admin weather_host default_config show_all_config);
    reflexivity.
Defined.

(** ** Keys and values of the display-name map *)

Lemma before_first_no_sep sep s : sep ∉ before_first sep s.
Proof.
  induction s as [|c s IH]; simpl; [apply not_elem_of_nil|].
  destruct (N.eqb_spec c sep) as [->|Hne]; [apply not_elem_of_nil|].
  intros [?|?]%elem_of_cons; [congruence|done].
Qed.

Lemma spec_entry_wellformed item key value :
  spec_entry item = Some (key, value) →
  key ≠ [] ∧ value ≠ [] ∧ trimmed key ∧ trimmed value ∧ colon ∉ key.
Proof.
  destruct item as [| | |s|]; simpl; try done.
  destruct (str_contains colon s); [|done].
  destruct (str_truthy (strip (before_first colon s))) eqn:Hkey; [|done].
  destruct (str_truthy (strip (after_first colon s))) eqn:Hvalue; [|done].
  simpl. intros [= <- <-].
  split; [by intros Heq; rewrite Heq in Hkey|].
  split; [by intros Heq; rewrite Heq in Hvalue|].
  split; [apply trimmed_strip|]. split; [apply trimmed_strip|].
  intros Hin%elem_of_strip. by apply before_first_no_sep in Hin.
Qed.

(** X10: every binding of the display-name map has a non-empty plugin name
    and a non-empty display name, both without surrounding whitespace, and
    the plugin name holds no colon. *)
Theorem display_name_map_wellformed config mapping key value :
  returned (_get_plugin_display_name_map config) = Some mapping →
  mapping !! key = Some value →
  key ≠ [] ∧ value ≠ [] ∧ trimmed key ∧ trimmed value ∧ colon ∉ key.
Proof.
  rewrite display_name_map_eq. simpl. intros [= <-] Hlookup.
  unfold spec_display_name_map in Hlookup.
  destruct (plugin_display_names config) as [[| | | |entries]|];
    try by rewrite lookup_empty in Hlookup.
  apply spec_fold_origin in Hlookup as [Hempty|(item & _ & Hitem)].
  - by rewrite lookup_empty in Hempty.
  - by eapply spec_entry_wellformed.
Qed.

Lemma display_name_map_wellformed_witness :
  str "a" ≠ [] ∧ str "b:c" ≠ [] ∧ trimmed (str "a") ∧ trimmed (str "b:c")
  ∧ colon ∉ str "a".
Proof.
  apply (display_name_map_wellformed sample_config
           (<[str "weather" := str "Sky"]> (<[str "a" := str "b:c"]> ∅))).
  - vm_compute. reflexivity.
  - vm_compute. reflexivity.
Defined.

(** ** Groups in terms of plugins *)

Lemma candidates_of_plugins config registry stars g :
  candidates_of g (candidates config registry stars)
  = filter (λ star, activated star = true
                    ∧ eligible config star = true
                    ∧ plugin_displayname_of
                        (spec_display_name_map (plugin_display_names config)) star = g)
      stars
    ≫= plugin_entries config registry.
Proof.
  unfold candidates, candidates_of.
  induction stars as [|star stars IH]; [done|].
  destruct (activated star) eqn:Hact.
  2:{ rewrite (filter_cons_False (λ star, activated star = true)) by congruence.
      rewrite filter_cons_False; [exact IH|]. intros [? _]. congruence. }
  rewrite (filter_cons_True (λ star, activated star = true)) by done.
  rewrite bind_cons, filter_app, fmap_app, IH. unfold star_candidates.
  destruct (eligible config star) eqn:Helig.
  2:{ rewrite filter_cons_False; [done|]. intros (_ & ? & _). congruence. }
  fold (plugin_entries config registry star).
  destruct (decide (plugin_displayname_of
                      (spec_display_name_map (plugin_display_names config)) star = g))
    as [Hg|Hg].
  - rewrite (filter_cons_True _ star) by done. rewrite bind_cons. f_equal.
    induction (plugin_entries config registry star) as [|e es IHes]; [done|].
    csimpl. rewrite filter_cons_True by done. csimpl. by rewrite IHes.
  - rewrite (filter_cons_False _ star) by (by intros (_ & _ & ?)).
    replace (filter _ (_ <$> plugin_entries config registry star))
      with (@nil (pystr * CommandEntry)); [done|].
    induction (plugin_entries config registry star) as [|e es IHes]; [done|].
    csimpl. by rewrite filter_cons_False by done.
Qed.

(** X11: a group collects the entries of all activated, scanned plugins shown
    under its name, plugin after plugin in host order and handler after
    handler in registry order; an entry is dropped when an equal one precedes
    it, be it from the same plugin or from another one of the same display
    name. *)
Theorem group_merges_plugins host config stars catalog g :
  get_all_stars host = Return stars →
  returned (get_all_commands host config) = Some catalog →
  group g catalog
  = first_occurrences
      (filter (λ star, activated star = true
                       ∧ eligible config star = true
                       ∧ plugin_displayname_of
                           (spec_display_name_map (plugin_display_names config)) star = g)
         stars
       ≫= plugin_entries config (star_handlers_registry host)).
Proof.
  intros Hstars Hret. rewrite (returned_catalog _ _ _ Hstars) in Hret.
  injection Hret as <-.
  by rewrite group_candidates, dedup_first_first_occurrences, candidates_of_plugins.
Qed.

Lemma group_merges_plugins_witness :
  plugin_entries default_config (star_handlers_registry merged_host) weather_star
    = [today_entry]
  ∧ plugin_entries default_config (star_handlers_registry merged_host) forecast_star
    = [week_entry; today_entry]
  ∧ group (str "weather") [(str "weather", [today_entry; week_entry])]
    = first_occurrences
        (filter (λ star, activated star = true
                         ∧ eligible default_config star = true
                         ∧ plugin_displayname_of
                             (spec_display_name_map (plugin_display_names default_config))
                             star = str "weather")
           [weather_star; broken_star; forecast_star]
         ≫= plugin_entries default_config (star_handlers_registry merged_host)).
Proof.
  split; [reflexivity|]. split; [reflexivity|].
  apply (group_merges_plugins merged_host default_config
           [weather_star; broken_star; forecast_star]); reflexivity.
Defined.

(** ** The help command *)

Lemma get_help_full host config draw_help_image :
  get_help host config draw_help_image
  = (log_of host config,
     match catalog_of host config with
     | [] => Return [plain_result no_commands_text]
     | catalog =>
         match draw_help_image catalog with
         | Return image => Return [chain_result [Image_fromBytes image]]
         | Raise e => Raise e
         end
     end).
Proof.
  unfold get_help. rewrite get_all_commands_full. simpl.
  destruct (catalog_of host config) as [|group groups]; simpl.
  - by rewrite app_nil_r.
  - destruct (draw_help_image _); simpl; by rewrite app_nil_r.
Qed.

Lemma first_occurrences_nil {A} `{EqDecision A} (l : list A) :
  first_occurrences l = [] ↔ l = [].
Proof. by destruct l. Qed.

Lemma catalog_of_nil host config :
  catalog_of host config = [] ↔
  ∀ stars, get_all_stars host = Return stars →
           Forall (λ star,
                     has_listed_command config (star_handlers_registry host) star = false)
             stars.
Proof.
  unfold catalog_of. destruct (get_all_stars host) as [stars|err]; [|done].
  split.
  - intros Hnil stars' [= <-].
    apply (f_equal (fmap fst)) in Hnil. rewrite catalog_keys, candidate_names in Hnil.
    apply first_occurrences_nil, fmap_nil_inv in Hnil.
    apply Forall_forall. intros star Hin.
    destruct (has_listed_command _ _ star) eqn:Hlisted; [|done].
    assert (star ∈ filter (λ star,
                             has_listed_command config (star_handlers_registry host) star
                             = true) stars) as Hstar
      by by apply list_elem_of_filter.
    rewrite Hnil in Hstar. by apply elem_of_nil in Hstar.
  - intros Hnone. specialize (Hnone stars eq_refl).
    apply (fmap_nil_inv fst). rewrite catalog_keys, candidate_names.
    replace (filter _ stars) with (@nil StarMetadata); [done|].
    symmetry. induction Hnone as [|star l Hstar _ IH]; [done|].
    rewrite filter_cons_False by congruence. exact IH.
Qed.

(** X12: the help command answers with the plain text, and with nothing
    else, exactly when the plugin list cannot be fetched or no activated,
    scanned plugin has a qualifying handler; the drawer plays no part in it. *)
Theorem get_help_plain_iff host config draw_help_image :
  returned (get_help host config draw_help_image) = Some [plain_result no_commands_text] ↔
  ∀ stars, get_all_stars host = Return stars →
           Forall (λ star,
                     has_listed_command config (star_handlers_registry host) star = false)
             stars.
Proof.
  rewrite <-catalog_of_nil, get_help_full. simpl.
  destruct (catalog_of host config) as [|group groups]; [done|].
  split; [|done]. by destruct (draw_help_image _).
Qed.

Lemma get_help_plain_iff_witness :
  returned (get_help core_host show_all_config failing_drawer)
  = Some [plain_result no_commands_text].
Proof.
  apply (get_help_plain_iff core_host show_all_config failing_drawer).
  intros stars [= <-]. repeat constructor.
Defined.

Lemma catalog_of_wellformed host config :
  NoDup (catalog_of host config).*1
  ∧ ∀ g es, (g, es) ∈ catalog_of host config → g ≠ [] ∧ es ≠ [].
Proof.
  unfold catalog_of. destruct (get_all_stars host) as [stars|err].
  - split; [apply catalog_keys_NoDup|]. intros g es Hin.
    pose proof (catalog_groups_nonempty
                  (candidates config (star_handlers_registry host) stars)) as Hne.
    rewrite Forall_forall in Hne. specialize (Hne _ Hin). simpl in Hne.
    split; [|done]. apply catalog_elem_of in Hin.
    destruct es as [|e es]; [done|].
    assert (e ∈ e :: es) as He by by left.
    rewrite Hin in He. apply elem_of_dedup_first, elem_of_candidates_of in He.
    by apply candidate_wellformed in He as [? _].
  - split; [constructor|]. by intros g es ?%elem_of_nil.
Qed.

(** X13: the help command consults the drawer only on a catalog with at
    least one group, pairwise distinct non-empty display names and no empty
    group: two drawers that agree on such catalogs give the same run. *)
Theorem get_help_draws_wellformed_catalog host config (draw1 draw2 : Drawer) :
  (∀ catalog,
     catalog ≠ [] →
     NoDup catalog.*1 →
     (∀ g es, (g, es) ∈ catalog → g ≠ [] ∧ es ≠ []) →
     draw1 catalog = draw2 catalog) →
  get_help host config draw1 = get_help host config draw2.
Proof.
  intros Hagree. rewrite !get_help_full.
  destruct (catalog_of_wellformed host config) as [Hkeys Hgroups].
  destruct (catalog_of host config) as [|group groups] eqn:Hcatalog; [done|].
  by rewrite Hagree.
Qed.

Lemma get_help_draws_wellformed_catalog_witness :
  get_help merged_host default_config blank_drawer
  = get_help merged_host default_config picky_drawer.
Proof.
  apply (get_help_draws_wellformed_catalog merged_host default_config
           blank_drawer picky_drawer).
  intros catalog Hsome _ _. by destruct catalog.
Defined.

(** X14: the help command logs what building the catalog logs and nothing
    more. It yields exactly one reply, unless the drawer raises on the
    catalog that was built, which then has at least one group; the
    exception of the drawer is the one that escapes. *)
Theorem get_help_one_reply_or_drawer_error host config draw_help_image :
  (get_help host config draw_help_image).1 = (get_all_commands host config).1
  ∧ ((∃ reply, (get_help host config draw_help_image).2 = Return [reply])
     ∨ ∃ catalog e,
         returned (get_all_commands host config) = Some catalog
         ∧ catalog ≠ []
         ∧ draw_help_image catalog = Raise e
         ∧ (get_help host config draw_help_image).2 = Raise e).
Proof.
  rewrite get_help_full, get_all_commands_full. simpl. split; [done|].
  destruct (catalog_of host config) as [|group groups] eqn:Hcatalog; [by eauto|].
  destruct (draw_help_image (group :: groups)) as [image|e] eqn:Hdraw; [by eauto|].
  right. by exists (group :: groups), e.
Qed.

(** ** Reach of [show_builtin_cmds] *)

Section show_builtin.
Variables (show_all names builtin1 builtin2 : option pyval).
Let config1 : Config :=
  {| show_all_cmds := show_all; show_builtin_cmds := builtin1;
     plugin_display_names := names |}.
Let config2 : Config :=
  {| show_all_cmds := show_all; show_builtin_cmds := builtin2;
     plugin_display_names := names |}.

Lemma not_builtin_same_run registry (stars : list StarMetadata) :
  Forall (λ star, internal_name star ≠ str "builtin_commands") stars →
  stars ≫= warnings_of config1 = stars ≫= warnings_of config2
  ∧ stars ≫= star_candidates config1 (spec_display_name_map names) registry
    = stars ≫= star_candidates config2 (spec_display_name_map names) registry.
Proof.
  induction 1 as [|star stars Hstar _ [IHlog IHcands]]; [done|].
  rewrite !bind_cons, IHlog, IHcands.
  assert (hidden_builtin config1 star = false ∧ hidden_builtin config2 star = false)
    as [H1 H2] by (unfold hidden_builtin; by rewrite bool_decide_eq_false_2).
  split; f_equal.
  - unfold warnings_of. by rewrite H1, H2.
  - unfold star_candidates, eligible. by rewrite H1, H2.
Qed.
End show_builtin.

(** X15: the option [show_builtin_cmds] bears on the plugin named
    "builtin_commands" only: when no activated plugin has that name, two
    configurations that differ in this option alone give the same log and
    the same catalog. *)
Theorem show_builtin_cmds_only_affects_builtin host config1 config2 :
  show_all_cmds config1 = show_all_cmds config2 →
  plugin_display_names config1 = plugin_display_names config2 →
  (∀ stars, get_all_stars host = Return stars →
            Forall (λ star, activated star = true →
                            internal_name star ≠ str "builtin_commands") stars) →
  get_all_commands host config1 = get_all_commands host config2.
Proof.
  destruct config1 as [show_all builtin1 names], config2 as [show_all' builtin2 names'].
  simpl. intros <- <- Hstars. rewrite !get_all_commands_full.
  unfold log_of, catalog_of, candidates.
  destruct (get_all_stars host) as [stars|err]; [|done]. simpl.
  specialize (Hstars stars eq_refl).
  assert (Forall (λ star, internal_name star ≠ str "builtin_commands")
            (filter (λ star, activated star = true) stars)) as Hactive.
  { apply Forall_forall. intros star [Hact Hin]%list_elem_of_filter.
    rewrite Forall_forall in Hstars. by apply Hstars. }
  destruct (not_builtin_same_run show_all names builtin1 builtin2
              (star_handlers_registry host) _ Hactive) as [Hlog Hcands].
  rewrite Hcands. f_equal. f_equal.
  by destruct (filter _ stars).
Qed.

Lemma show_builtin_cmds_only_affects_builtin_witness :
  get_all_commands weather_host default_config
  = get_all_commands weather_host hide_builtin_config.
Proof.
  apply (show_builtin_cmds_only_affects_builtin weather_host default_config
           hide_builtin_config).
  - reflexivity.
  - reflexivity.
  - intros stars [= <-]. repeat constructor. intros _. discriminate.
Defined.
